(** * Item filter of the DMarket scraper: a shallow embedding of
    [src/item_filter.py] and the properties of its text normaliser, record
    transformer, candidacy evaluator and grouping resolver.

    Modelling conventions.
    - A Python [str] is the list of its Unicode code points ([list N]).
    - A Python [float] price is an exact rational ([Q]); rounding of binary64
      and the non-finite values are outside the model.  Division keeps
      Python's behaviour of raising [ZeroDivisionError] on a zero divisor.
    - A Python [int] is a [Z].
    - Code that can raise returns a [result]; [try]/[except] is written out.
    - Library functions whose tables are not part of the repository
      ([unicodedata.normalize], [float], [datetime.strptime]) are Section
      variables; small concrete instances are used to run examples.
    - [logging] calls have no effect on the values computed and are left out. *)

From Stdlib Require Import String Ascii.
From Stdlib Require Import List Bool Arith ZArith NArith QArith Qreduction Lia.
From Stdlib Require Import Permutation Sorted Lqa Zify.
Import ListNotations.

Set Implicit Arguments.

(* ------------------------------------------------------------------ *)
(** ** Exceptions *)

Inductive exn : Type :=
| ValueError
| TypeError
| ZeroDivisionError
| UnicodeEncodeError
| UnicodeDecodeError
| StatisticsError.

Inductive result (A : Type) : Type :=
| Ok (a : A)
| Raise (e : exn).

Arguments Ok {A} a.
Arguments Raise {A} e.

Definition rbind {A B : Type} (c : result A) (k : A -> result B) : result B :=
  match c with
  | Ok a => k a
  | Raise e => Raise e
  end.

Declare Scope result_scope.
Delimit Scope result_scope with result.
Notation "x <- c ;; k" := (rbind c (fun x => k))
  (at level 61, c at next level, right associativity) : result_scope.

(** [try: c except Exception: d] for a computation without state. *)
Definition try_except {A : Type} (c : result A) (handler : exn -> A) : A :=
  match c with
  | Ok a => a
  | Raise e => handler e
  end.

Definition raises {A : Type} (c : result A) : Prop :=
  exists e, c = Raise e.

(* ------------------------------------------------------------------ *)
(** ** Python strings *)

Definition str : Type := list N.

Definition code_of_ascii (a : ascii) : N := N_of_ascii a.

(** An ASCII literal as a Python string. *)
Fixpoint lit (s : string) : str :=
  match s with
  | EmptyString => []
  | String a s' => code_of_ascii a :: lit s'
  end.

Arguments lit s%_string.

Fixpoint str_eqb (s t : str) : bool :=
  match s, t with
  | [], [] => true
  | a :: s', b :: t' => N.eqb a b && str_eqb s' t'
  | _, _ => false
  end.

(** [str.isspace] on one code point: the white space of [str.split] and
    [str.strip] without argument. *)
Definition isspace (c : N) : bool :=
  ((9 <=? c) && (c <=? 13) || (28 <=? c) && (c <=? 32) || (c =? 133)
   || (c =? 160) || (c =? 5760) || (8192 <=? c) && (c <=? 8202)
   || (c =? 8232) || (c =? 8233) || (c =? 8239) || (c =? 8287)
   || (c =? 12288))%N.

(** [s.split()]: the maximal runs of characters that are not white space. *)
Fixpoint split (s : str) : list str :=
  match s with
  | [] => []
  | c :: s' =>
      if isspace c then split s'
      else match s' with
           | [] => [[c]]
           | c' :: _ =>
               if isspace c' then [c] :: split s'
               else match split s' with
                    | w :: ws => (c :: w) :: ws
                    | [] => [[c]]
                    end
           end
  end.

(** [sep.join(ws)] *)
Fixpoint join (sep : str) (ws : list str) : str :=
  match ws with
  | [] => []
  | [w] => w
  | w :: ws' => w ++ sep ++ join sep ws'
  end.

Fixpoint lstrip (s : str) : str :=
  match s with
  | [] => []
  | c :: s' => if isspace c then lstrip s' else s
  end.

Definition rstrip (s : str) : str := rev (lstrip (rev s)).

(** [s.strip()] *)
Definition strip (s : str) : str := rstrip (lstrip s).

(** [s.replace(c, "")] for a one-character [c]. *)
Definition remove_char (c : N) (s : str) : str :=
  filter (fun x => negb (N.eqb x c)) s.

(** [c in s] for a one-character [c]. *)
Definition contains (c : N) (s : str) : bool := existsb (N.eqb c) s.

(** [s.endswith(suffix)] *)
Definition endswith (s suffix : str) : bool :=
  (length suffix <=? length s)%nat
  && str_eqb (skipn (length s - length suffix) s) suffix.

(** [s[:-n]] for [n > 0]. *)
Definition drop_last (n : nat) (s : str) : str := firstn (length s - n) s.

(** Truth value of a string that may be [None] or missing. *)
Definition truthy (o : option str) : bool :=
  match o with
  | Some (_ :: _) => true
  | _ => false
  end.

(* ------------------------------------------------------------------ *)
(** ** Latin-1 and UTF-8 *)

(** [s.encode("latin1")]: every code point must fit a byte. *)
Fixpoint encode_latin1 (s : str) : result (list N) :=
  match s with
  | [] => Ok []
  | c :: s' =>
      if (c <=? 255)%N
      then (bs <- encode_latin1 s' ;; Ok (c :: bs))%result
      else Raise UnicodeEncodeError
  end.

Definition is_cont (b : N) : bool := ((128 <=? b) && (b <=? 191))%N.

Definition in_range (lo hi b : N) : bool := ((lo <=? b) && (b <=? hi))%N.

(** [bs.decode("utf-8")], strict: no overlong forms, no surrogates, nothing
    above U+10FFFF. *)
Fixpoint decode_utf8 (bs : list N) : result str :=
  match bs with
  | [] => Ok []
  | b0 :: r0 =>
      if (b0 <? 128)%N then (s <- decode_utf8 r0 ;; Ok (b0 :: s))%result
      else if in_range 194 223 b0 then
        match r0 with
        | b1 :: r1 =>
            if is_cont b1
            then (s <- decode_utf8 r1 ;;
                  Ok (((b0 - 192) * 64 + (b1 - 128))%N :: s))%result
            else Raise UnicodeDecodeError
        | _ => Raise UnicodeDecodeError
        end
      else if in_range 224 239 b0 then
        match r0 with
        | b1 :: b2 :: r2 =>
            let lo := if (b0 =? 224)%N then 160%N else 128%N in
            let hi := if (b0 =? 237)%N then 159%N else 191%N in
            if in_range lo hi b1 && is_cont b2
            then (s <- decode_utf8 r2 ;;
                  Ok (((b0 - 224) * 4096 + (b1 - 128) * 64 + (b2 - 128))%N
                        :: s))%result
            else Raise UnicodeDecodeError
        | _ => Raise UnicodeDecodeError
        end
      else if in_range 240 244 b0 then
        match r0 with
        | b1 :: b2 :: b3 :: r3 =>
            let lo := if (b0 =? 240)%N then 144%N else 128%N in
            let hi := if (b0 =? 244)%N then 143%N else 191%N in
            if in_range lo hi b1 && is_cont b2 && is_cont b3
            then (s <- decode_utf8 r3 ;;
                  Ok (((b0 - 240) * 262144 + (b1 - 128) * 4096
                       + (b2 - 128) * 64 + (b3 - 128))%N :: s))%result
            else Raise UnicodeDecodeError
        | _ => Raise UnicodeDecodeError
        end
      else Raise UnicodeDecodeError
  end.

(* ------------------------------------------------------------------ *)
(** ** Text normaliser: [clean_name] and [base_name] *)

(** U+00E2, the artifact of a UTF-8 text read as Latin-1. *)
Definition A_CIRC : N := 226.
(** U+2122, the trademark sign. *)
Definition TRADE_MARK : N := 8482.
Definition SPACE : str := [32%N].
Definition MINE_SUFFIX : str := lit " MINE".

Section Normalizer.

(** [unicodedata.normalize("NFKC", s)] *)
Variable nfkc : str -> str.

(** The first step of [clean_name]: a name that shows the artifact is read
    again as UTF-8, and kept as it is when that fails. *)
Definition fix_encoding (name : str) : str :=
  if contains A_CIRC name
  then try_except
         (bs <- encode_latin1 name ;; decode_utf8 bs)%result
         (fun _ => name)
  else name.

(** [name] is [None] for a name that is missing or [None].  On a string the
    steps after the re-encoding do not raise, so the outer [except] of the
    source is never entered. *)
Definition clean_name (name : option str) : str :=
  match name with
  | None | Some [] => []
  | Some name =>
      let name_fixed := fix_encoding name in
      let name_fixed := remove_char TRADE_MARK name_fixed in
      let name_fixed := nfkc name_fixed in
      join SPACE (split name_fixed)
  end.

Definition base_name (name : str) : str :=
  if endswith name MINE_SUFFIX
  then strip (drop_last (length MINE_SUFFIX) name)
  else name.

End Normalizer.

(* ------------------------------------------------------------------ *)
(** ** Numbers *)

Definition Qltb (x y : Q) : bool := negb (Qle_bool y x).

(** [x / y] on floats. *)
Definition py_div (x y : Q) : result Q :=
  if Qeq_bool y 0 then Raise ZeroDivisionError else Ok (Qred (x / y)).



Definition Qsum (xs : list Q) : Q := fold_left Qplus xs 0.

Definition Qlen (xs : list Q) : Q := inject_Z (Z.of_nat (length xs)).

(** [statistics.mean(xs)] *)
Definition mean (xs : list Q) : result Q :=
  match xs with
  | [] => Raise StatisticsError
  | _ => Ok (Qred (Qsum xs / Qlen xs))
  end.

(** [statistics.variance(xs)], the sample variance. *)
Definition variance (xs : list Q) : result Q :=
  match xs with
  | [] | [_] => Raise StatisticsError
  | _ =>
      let m := Qsum xs / Qlen xs in
      Ok (Qred (Qsum (map (fun x => (x - m) * (x - m)) xs) / (Qlen xs - 1)))
  end.

(** [sorted(xs)] and [sorted(xs, reverse=True)]: stable insertion. *)
Fixpoint insert_by (le : Q -> Q -> bool) (x : Q) (l : list Q) : list Q :=
  match l with
  | [] => [x]
  | y :: l' => if le x y then x :: l else y :: insert_by le x l'
  end.

Definition sort_by (le : Q -> Q -> bool) (l : list Q) : list Q :=
  fold_right (insert_by le) [] l.

Definition sorted (l : list Q) : list Q := sort_by Qle_bool l.

Definition sorted_reverse (l : list Q) : list Q :=
  sort_by (fun x y => Qle_bool y x) l.

(* ------------------------------------------------------------------ *)
(** ** Data model *)

(** One row of the sales table.  A field is [None] when its key is missing or
    holds [None]. *)
Record RawSaleEvent : Type := {
  sh_price : option str;
  sh_operation : option str;
  sh_date_time : option str;
  sh_date : option str;
  sh_time : option str
}.

Record RawOrderEntry : Type := {
  oe_price : option str;
  oe_quantity : option str
}.

(** [raw_wear] is [None] when the key is missing and [Some None] when it
    holds [None]. *)
Record RawItem : Type := {
  raw_name : option str;
  raw_wear : option (option str);
  sales_history : list RawSaleEvent;
  target_prices : list RawOrderEntry;
  offer_prices : list RawOrderEntry
}.

Definition datetime : Type := Z.

Record SaleInfo : Type := {
  si_price : Q;
  si_date_time : option str;
  si_operation : option str
}.

(** The dictionary built by [transform_item].  [name] and [wear] are always
    set; every other key is [None] until it is assigned. *)
Record AnalyticRecord : Type := {
  name : str;
  wear : option str;
  sales : option Z;
  recent_sales_prices : option (list SaleInfo);
  offer_prices_list : option (list Q);
  offer_prices_quantity : option Z;
  target_price_list : option (list Q);
  target_price_list_quantity : option Z;
  profit_margin_pair1 : option Q;
  profit_margin_pair2 : option Q;
  average_recent_sale_price : option Q;
  price_variance : option Q
}.

(** The [{"name": ..., "wear": ...}] entries of the two outputs. *)
Record Projection : Type := {
  p_name : str;
  p_wear : option str
}.

Definition new_record (n : str) (w : option str) : AnalyticRecord :=
  {| name := n; wear := w; sales := None; recent_sales_prices := None;
     offer_prices_list := None; offer_prices_quantity := None;
     target_price_list := None; target_price_list_quantity := None;
     profit_margin_pair1 := None; profit_margin_pair2 := None;
     average_recent_sale_price := None; price_variance := None |}.

Definition set_sales (v : Z) (r : AnalyticRecord) : AnalyticRecord :=
  {| name := name r; wear := wear r; sales := Some v;
     recent_sales_prices := recent_sales_prices r;
     offer_prices_list := offer_prices_list r;
     offer_prices_quantity := offer_prices_quantity r;
     target_price_list := target_price_list r;
     target_price_list_quantity := target_price_list_quantity r;
     profit_margin_pair1 := profit_margin_pair1 r;
     profit_margin_pair2 := profit_margin_pair2 r;
     average_recent_sale_price := average_recent_sale_price r;
     price_variance := price_variance r |}.

Definition set_recent_sales_prices (v : list SaleInfo) (r : AnalyticRecord)
  : AnalyticRecord :=
  {| name := name r; wear := wear r; sales := sales r;
     recent_sales_prices := Some v;
     offer_prices_list := offer_prices_list r;
     offer_prices_quantity := offer_prices_quantity r;
     target_price_list := target_price_list r;
     target_price_list_quantity := target_price_list_quantity r;
     profit_margin_pair1 := profit_margin_pair1 r;
     profit_margin_pair2 := profit_margin_pair2 r;
     average_recent_sale_price := average_recent_sale_price r;
     price_variance := price_variance r |}.

Definition set_offer_prices_list (v : list Q) (r : AnalyticRecord)
  : AnalyticRecord :=
  {| name := name r; wear := wear r; sales := sales r;
     recent_sales_prices := recent_sales_prices r;
     offer_prices_list := Some v;
     offer_prices_quantity := offer_prices_quantity r;
     target_price_list := target_price_list r;
     target_price_list_quantity := target_price_list_quantity r;
     profit_margin_pair1 := profit_margin_pair1 r;
     profit_margin_pair2 := profit_margin_pair2 r;
     average_recent_sale_price := average_recent_sale_price r;
     price_variance := price_variance r |}.

Definition set_offer_prices_quantity (v : Z) (r : AnalyticRecord)
  : AnalyticRecord :=
  {| name := name r; wear := wear r; sales := sales r;
     recent_sales_prices := recent_sales_prices r;
     offer_prices_list := offer_prices_list r;
     offer_prices_quantity := Some v;
     target_price_list := target_price_list r;
     target_price_list_quantity := target_price_list_quantity r;
     profit_margin_pair1 := profit_margin_pair1 r;
     profit_margin_pair2 := profit_margin_pair2 r;
     average_recent_sale_price := average_recent_sale_price r;
     price_variance := price_variance r |}.

Definition set_target_price_list (v : list Q) (r : AnalyticRecord)
  : AnalyticRecord :=
  {| name := name r; wear := wear r; sales := sales r;
     recent_sales_prices := recent_sales_prices r;
     offer_prices_list := offer_prices_list r;
     offer_prices_quantity := offer_prices_quantity r;
     target_price_list := Some v;
     target_price_list_quantity := target_price_list_quantity r;
     profit_margin_pair1 := profit_margin_pair1 r;
     profit_margin_pair2 := profit_margin_pair2 r;
     average_recent_sale_price := average_recent_sale_price r;
     price_variance := price_variance r |}.

Definition set_target_price_list_quantity (v : Z) (r : AnalyticRecord)
  : AnalyticRecord :=
  {| name := name r; wear := wear r; sales := sales r;
     recent_sales_prices := recent_sales_prices r;
     offer_prices_list := offer_prices_list r;
     offer_prices_quantity := offer_prices_quantity r;
     target_price_list := target_price_list r;
     target_price_list_quantity := Some v;
     profit_margin_pair1 := profit_margin_pair1 r;
     profit_margin_pair2 := profit_margin_pair2 r;
     average_recent_sale_price := average_recent_sale_price r;
     price_variance := price_variance r |}.

Definition set_profit_margin_pair1 (v : Q) (r : AnalyticRecord)
  : AnalyticRecord :=
  {| name := name r; wear := wear r; sales := sales r;
     recent_sales_prices := recent_sales_prices r;
     offer_prices_list := offer_prices_list r;
     offer_prices_quantity := offer_prices_quantity r;
     target_price_list := target_price_list r;
     target_price_list_quantity := target_price_list_quantity r;
     profit_margin_pair1 := Some v;
     profit_margin_pair2 := profit_margin_pair2 r;
     average_recent_sale_price := average_recent_sale_price r;
     price_variance := price_variance r |}.

Definition set_profit_margin_pair2 (v : Q) (r : AnalyticRecord)
  : AnalyticRecord :=
  {| name := name r; wear := wear r; sales := sales r;
     recent_sales_prices := recent_sales_prices r;
     offer_prices_list := offer_prices_list r;
     offer_prices_quantity := offer_prices_quantity r;
     target_price_list := target_price_list r;
     target_price_list_quantity := target_price_list_quantity r;
     profit_margin_pair1 := profit_margin_pair1 r;
     profit_margin_pair2 := Some v;
     average_recent_sale_price := average_recent_sale_price r;
     price_variance := price_variance r |}.

Definition set_average_recent_sale_price (v : Q) (r : AnalyticRecord)
  : AnalyticRecord :=
  {| name := name r; wear := wear r; sales := sales r;
     recent_sales_prices := recent_sales_prices r;
     offer_prices_list := offer_prices_list r;
     offer_prices_quantity := offer_prices_quantity r;
     target_price_list := target_price_list r;
     target_price_list_quantity := target_price_list_quantity r;
     profit_margin_pair1 := profit_margin_pair1 r;
     profit_margin_pair2 := profit_margin_pair2 r;
     average_recent_sale_price := Some v;
     price_variance := price_variance r |}.

Definition set_price_variance (v : Q) (r : AnalyticRecord) : AnalyticRecord :=
  {| name := name r; wear := wear r; sales := sales r;
     recent_sales_prices := recent_sales_prices r;
     offer_prices_list := offer_prices_list r;
     offer_prices_quantity := offer_prices_quantity r;
     target_price_list := target_price_list r;
     target_price_list_quantity := target_price_list_quantity r;
     profit_margin_pair1 := profit_margin_pair1 r;
     profit_margin_pair2 := profit_margin_pair2 r;
     average_recent_sale_price := average_recent_sale_price r;
     price_variance := Some v |}.

(* ------------------------------------------------------------------ *)
(** ** The transformer's monad

    The body of [transform_item] runs inside one [try] block and assigns the
    keys of the dictionary [transformed] one after the other: a computation
    takes the dictionary and returns it together with a value or an
    exception.  The assignments made before an exception stay. *)

Definition M (A : Type) : Type := AnalyticRecord -> AnalyticRecord * result A.

Definition mret {A : Type} (a : A) : M A := fun t => (t, Ok a).

Definition mbind {A B : Type} (c : M A) (k : A -> M B) : M B :=
  fun t =>
    match c t with
    | (t', Ok a) => k a t'
    | (t', Raise e) => (t', Raise e)
    end.

(** A computation that may raise and does not touch the dictionary. *)
Definition lift {A : Type} (c : result A) : M A := fun t => (t, c).

(** [transformed[key] = v], with the setter of the key. *)
Definition assign (setter : AnalyticRecord -> AnalyticRecord) : M unit :=
  fun t => (setter t, Ok tt).

(** [try: body except Exception: log]; the dictionary is what is left. *)
Definition try_log (body : M unit) (t : AnalyticRecord) : AnalyticRecord :=
  fst (body t).

Declare Scope transform_scope.
Delimit Scope transform_scope with transform.
Notation "x <- c ;; k" := (mbind c (fun x => k))
  (at level 61, c at next level, right associativity) : transform_scope.
Notation "c ;; k" := (mbind c (fun _ => k))
  (at level 61, right associativity) : transform_scope.

(* ------------------------------------------------------------------ *)
(** ** Record transformer: [parse_date] and [transform_item] *)

Definition DOLLAR : N := 36.
Definition DEFAULT_PRICE : Q := 0.01.

Definition date_formats : list str :=
  [ lit "%Y-%m-%d %H:%M:%S";
    lit "%Y-%m-%d";
    lit "%b %d, %Y, %I:%M %p";
    lit "%b %d, %Y at %I:%M %p" ].

(** [timedelta(days=30)], in microseconds. *)
Definition THIRTY_DAYS : Z := 30 * 86400 * 1000000.

(** [lst[i] if len(lst) >= i + 1 else 0.01] *)
Definition nth_or_default (l : list Q) (i : nat) : Q :=
  if (i + 1 <=? length l)%nat then nth i l DEFAULT_PRICE else DEFAULT_PRICE.

Section Transformer.

Variable nfkc : str -> str.
(** [float(s)], raising [ValueError] on a text that is not a number. *)
Variable py_float : str -> result Q.
(** [datetime.strptime(s, fmt)], raising [ValueError] on a mismatch. *)
Variable strptime : str -> str -> result datetime.

(** [datetime.strptime] applied to a value that may be [None]. *)
Definition strptime_opt (date_str : option str) (fmt : str)
  : result datetime :=
  match date_str with
  | None => Raise TypeError
  | Some s => strptime s fmt
  end.

Fixpoint try_formats (date_str : option str) (fmts : list str)
  : option datetime :=
  match fmts with
  | [] => None
  | fmt :: rest =>
      match strptime_opt date_str fmt with
      | Ok d => Some d
      | Raise _ => try_formats date_str rest
      end
  end.

Definition parse_date (date_str : option str) : option datetime :=
  try_formats date_str date_formats.

(** [float(e.get("price", "0").replace("$", "").strip())] *)
Definition parse_price (price : option str) : result Q :=
  let text := match price with Some s => s | None => lit "0" end in
  py_float (strip (remove_char DOLLAR text)).

(** The value of [date_time] after the fall-backs on [date] and [time]. *)
Definition resolve_date_time (sh : RawSaleEvent) : option str :=
  if truthy (sh_date_time sh) then sh_date_time sh
  else
    match sh_date sh, sh_time sh with
    | Some date_value, Some time_value =>
        if truthy (sh_date sh) && truthy (sh_time sh)
        then Some (date_value ++ SPACE ++ time_value)
        else sh_date sh
    | _, _ => sh_date sh
    end.

(** One turn of the loop over [sales_history]; the state is
    [(monthly_sales, recent_sales_data)]. *)
Definition sale_step (thirty_days_ago : datetime)
    (st : Z * list SaleInfo) (sh : RawSaleEvent) : Z * list SaleInfo :=
  if truthy (sh_price sh) then
    match parse_price (sh_price sh) with
    | Raise _ => st
    | Ok price =>
        let date_time := resolve_date_time sh in
        match parse_date date_time with
        | None => st
        | Some sale_date =>
            if (thirty_days_ago <=? sale_date)%Z
            then ((fst st + 1)%Z,
                  snd st ++ [ {| si_price := price;
                                 si_date_time := date_time;
                                 si_operation := sh_operation sh |} ])
            else st
        end
    end
  else st.

(** [[float(...) for e in entries if e.get("price")]]: the first text
    that is not a number raises and the list is lost. *)
Fixpoint parse_prices (entries : list RawOrderEntry) : result (list Q) :=
  match entries with
  | [] => Ok []
  | e :: rest =>
      if truthy (oe_price e)
      then (x <- parse_price (oe_price e) ;;
            xs <- parse_prices rest ;;
            Ok (x :: xs))%result
      else parse_prices rest
  end.

Definition transform_body (now : datetime) (raw_item : RawItem) : M unit :=
  (let thirty_days_ago := (now - THIRTY_DAYS)%Z in
   let '(monthly_sales, recent_sales_data) :=
     fold_left (sale_step thirty_days_ago) (sales_history raw_item)
               (0%Z, []) in
   assign (set_sales monthly_sales) ;;
   assign (set_recent_sales_prices recent_sales_data) ;;
   let recent_prices := map si_price recent_sales_data in
   full_offer_list <- lift (parse_prices (offer_prices raw_item)) ;;
   let sorted_offers := sorted full_offer_list in
   let lowest_offers := firstn 3 sorted_offers in
   assign (set_offer_prices_list lowest_offers) ;;
   assign (set_offer_prices_quantity (Z.of_nat (length lowest_offers))) ;;
   full_target_list <- lift (parse_prices (target_prices raw_item)) ;;
   let sorted_targets := sorted_reverse full_target_list in
   let highest_targets := firstn 3 sorted_targets in
   assign (set_target_price_list highest_targets) ;;
   assign (set_target_price_list_quantity
             (Z.of_nat (length highest_targets))) ;;
   let offer1 := nth_or_default lowest_offers 0 in
   let target1 := nth_or_default highest_targets 0 in
   margin_pair1 <- lift (py_div offer1 target1) ;;
   assign (set_profit_margin_pair1 margin_pair1) ;;
   let offer2 := nth_or_default lowest_offers 1 in
   let target2 := nth_or_default highest_targets 1 in
   margin_pair2 <- lift (py_div offer2 target2) ;;
   assign (set_profit_margin_pair2 margin_pair2) ;;
   match recent_prices with
   | _ :: _ =>
       avg <- lift (mean recent_prices) ;;
       assign (set_average_recent_sale_price avg) ;;
       var <- (if (1 <? length recent_prices)%nat
               then lift (variance recent_prices)
               else mret 0) ;;
       assign (set_price_variance var)
   | [] =>
       assign (set_average_recent_sale_price 0) ;;
       assign (set_price_variance 0)
   end)%transform.

Definition transform_item (now : datetime) (raw_item : RawItem)
  : AnalyticRecord :=
  let transformed :=
    new_record (clean_name nfkc (raw_name raw_item))
               (match raw_wear raw_item with
                | Some w => w
                | None => Some []
                end) in
  try_log (transform_body now raw_item) transformed.

End Transformer.

(* ------------------------------------------------------------------ *)
(** ** Consistency and candidacy evaluator *)

Definition MIN_SALES_NORMAL : Z := 15.
Definition MIN_SALES_EXCEPTION : Z := 7.
Definition PROFIT_MARGIN_NORMAL : Q := 1.15.
Definition PROFIT_MARGIN_EXCEPTION : Q := 1.30.


(** [item.get(key, default)] *)
Definition get_default {A : Type} (field : option A) (default : A) : A :=
  match field with
  | Some v => v
  | None => default
  end.

(** Truth value of [item.get(key)] for a key that holds a list. *)
Definition truthy_list {A : Type} (field : option (list A)) : bool :=
  match field with
  | Some (_ :: _) => true
  | _ => false
  end.

(** [v >= factor] for a value that may be [None]. *)
Definition py_ge (v : option Q) (factor : Q) : result bool :=
  match v with
  | None => Raise TypeError
  | Some x => Ok (Qle_bool factor x)
  end.

Definition is_not_none {A : Type} (v : option A) : bool :=
  match v with
  | Some _ => true
  | None => false
  end.

Definition is_good_candidate (item : AnalyticRecord) : result bool :=
  let sales := get_default (sales item) 0%Z in
  if (sales <? MIN_SALES_EXCEPTION)%Z then Ok false
  else if negb (truthy_list (offer_prices_list item))
          || negb (truthy_list (target_price_list item))
  then Ok false
  else Ok true.

(** [pm is not None and pm >= factor] *)
Definition margin_reaches (pm : option Q) (factor : Q) : result bool :=
  if is_not_none pm then py_ge pm factor else Ok false.

Definition passes_profit_margin (item : AnalyticRecord) : result bool :=
  let sales := get_default (sales item) 0%Z in
  if (sales <? MIN_SALES_EXCEPTION)%Z then Ok false
  else
    let factor :=
      if (MIN_SALES_NORMAL <=? sales)%Z
      then PROFIT_MARGIN_NORMAL else PROFIT_MARGIN_EXCEPTION in
    let pm1 := profit_margin_pair1 item in
    let pm2 := profit_margin_pair2 item in
    (b1 <- margin_reaches pm1 factor ;;
     if b1 then Ok true
     else
       b2 <- margin_reaches pm2 factor ;;
       if b2 then Ok true else Ok false)%result.

(** [is_good_candidate(item) or passes_profit_margin(item)] *)
Definition is_candidate (item : AnalyticRecord) : result bool :=
  (good <- is_good_candidate item ;;
   if good then Ok true else passes_profit_margin item)%result.

(* ------------------------------------------------------------------ *)
(** ** Grouping and override resolver: the loops of [main] *)

Definition project (item : AnalyticRecord) : Projection :=
  {| p_name := name item; p_wear := wear item |}.

(** [item.get("name", "").endswith(" MINE")] *)
Definition is_mine (item : AnalyticRecord) : bool :=
  endswith (name item) MINE_SUFFIX.

(** [groups[base].append(item)] on a dictionary that keeps the order in which
    its keys were first inserted. *)
Fixpoint group_append (groups : list (str * list AnalyticRecord))
    (base : str) (item : AnalyticRecord) : list (str * list AnalyticRecord) :=
  match groups with
  | [] => [(base, [item])]
  | (k, g) :: rest =>
      if str_eqb k base then (k, g ++ [item]) :: rest
      else (k, g) :: group_append rest base item
  end.

(** The first candidate of [non_mine_items], projected. *)
Fixpoint first_candidate (non_mine_items : list AnalyticRecord)
  : result (option Projection) :=
  match non_mine_items with
  | [] => Ok None
  | item :: rest =>
      (c <- is_candidate item ;;
       if c then Ok (Some (project item)) else first_candidate rest)%result
  end.

(** One turn of the loop over the groups; the state is
    [(good_items, bad_items)]. *)
Definition resolve_group (group : list AnalyticRecord)
    (out : list Projection * list Projection)
  : result (list Projection * list Projection) :=
  let mine_items := filter is_mine group in
  let non_mine_items := filter (fun item => negb (is_mine item)) group in
  (candidate <- first_candidate non_mine_items ;;
   match candidate with
   | Some c => Ok (fst out ++ [c], snd out ++ map project mine_items)
   | None => Ok (fst out, snd out ++ map project group)
   end)%result.

Fixpoint resolve_groups (groups : list (str * list AnalyticRecord))
    (out : list Projection * list Projection)
  : result (list Projection * list Projection) :=
  match groups with
  | [] => Ok out
  | (_, group) :: rest =>
      (out' <- resolve_group group out ;; resolve_groups rest out')%result
  end.

Section Resolver.

Variable nfkc : str -> str.

(** The key under which [main] files an item. *)
Definition group_key (item : AnalyticRecord) : str :=
  base_name (clean_name nfkc (Some (name item))).

Definition build_groups (items : list AnalyticRecord)
  : list (str * list AnalyticRecord) :=
  fold_left (fun groups item => group_append groups (group_key item) item)
            items [].

(** [main] from the grouping to the two lists handed to [save_items]. *)
Definition resolve (items : list AnalyticRecord)
  : result (list Projection * list Projection) :=
  resolve_groups (build_groups items) ([], []).

End Resolver.

(* ------------------------------------------------------------------ *)
(** ** The batch: [load_items] and the filtering of [main] *)

Section Batch.

Variable nfkc : str -> str.
Variable py_float : str -> result Q.
Variable strptime : str -> str -> result datetime.

(** [load_items]: [aggregated] is what opening and reading the aggregated
    file gives, the list of raw items or an exception. *)
Definition load_items (now : datetime) (aggregated : result (list RawItem))
  : list AnalyticRecord :=
  try_except
    (raw_items <- aggregated ;;
     Ok (map (transform_item nfkc py_float strptime now) raw_items))%result
    (fun _ => []).

(** [main] up to the two lists it saves. *)
Definition filter_items (now : datetime) (aggregated : result (list RawItem))
  : result (list Projection * list Projection) :=
  resolve nfkc (load_items now aggregated).

End Batch.

(* ------------------------------------------------------------------ *)
(** ** The collector's naming: [parse_item_name_and_wear]
    ([src/item_fetcher.py]) *)

Definition LPAREN : N := 40.
Definition RPAREN : N := 41.

(** [s.rsplit(c, 1)] for a one-character [c]: the text before and the text
    after the last [c], or [None] when [s] has no [c] (the list returned has
    then one element). *)
Fixpoint rsplit1 (c : N) (s : str) : option (str * str) :=
  match s with
  | [] => None
  | x :: s' =>
      match rsplit1 c s' with
      | Some (before, after) => Some (x :: before, after)
      | None => if N.eqb x c then Some ([], s') else None
      end
  end.

(** The wear is [None] when the full name has no wear in parentheses.
    Unpacking a list of one element into two names raises [ValueError]. *)
Definition parse_item_name_and_wear (full_name : str)
  : result (str * option str) :=
  if contains LPAREN full_name && endswith full_name [RPAREN] then
    match rsplit1 LPAREN full_name with
    | Some (name_part, wear_part) =>
        let item_name := strip name_part in
        let item_wear := strip (drop_last 1 wear_part) in
        Ok (item_name, Some item_wear)
    | None => Raise ValueError
    end
  else Ok (full_name, None).

(* ------------------------------------------------------------------ *)
(** ** Instances of the library functions, for running examples *)

(** Normalisation restricted to texts made of code points that NFKC leaves
    alone (ASCII, precomposed Latin-1 letters, Braille patterns, ...): there
    it is the identity.  Used on such texts only. *)
Definition nfkc_stable (s : str) : str := s.

Definition isdigit (c : N) : bool := ((48 <=? c) && (c <=? 57))%N.

Fixpoint digits_value (acc : Z) (s : str) : Z :=
  match s with
  | [] => acc
  | c :: s' => digits_value (10 * acc + Z.of_N (c - 48))%Z s'
  end.

Fixpoint span_digits (s : str) : str * str :=
  match s with
  | [] => ([], [])
  | c :: s' =>
      if isdigit c
      then let (ds, rest) := span_digits s' in (c :: ds, rest)
      else ([], s)
  end.

(** [float] on plain decimal literals: an optional sign, digits, and
    optionally a point followed by digits.  The other texts that [float]
    reads (exponents, [inf], ...) are outside this instance, which refuses
    them; it is run on plain decimal literals and on texts without a digit. *)
Definition float_decimal (s : str) : result Q :=
  let (negative, body) :=
    match s with
    | 45%N :: r => (true, r)
    | 43%N :: r => (false, r)
    | _ => (false, s)
    end in
  let (int_part, rest) := span_digits body in
  let signed (q : Q) := if negative then Qred (- q) else Qred q in
  match int_part, rest with
  | _ :: _, [] => Ok (signed (inject_Z (digits_value 0 int_part)))
  | _ :: _, 46%N :: frac =>
      match span_digits frac with
      | ((_ :: _) as fs, []) =>
          Ok (signed (Qmake (digits_value 0 (int_part ++ fs))
                            (Pos.pow 10 (Pos.of_nat (length fs)))))
      | _ => Raise ValueError
      end
  | _, _ => Raise ValueError
  end.

Definition is_leap (y : Z) : bool :=
  ((y mod 4 =? 0) && (negb (y mod 100 =? 0) || (y mod 400 =? 0)))%Z.

Definition days_in_month (y m : Z) : Z :=
  (if m =? 2 then (if is_leap y then 29 else 28)
   else if (m =? 4) || (m =? 6) || (m =? 9) || (m =? 11) then 30 else 31)%Z.

(** Days from 1970-01-01 to the given civil date. *)
Definition days_from_civil (y m d : Z) : Z :=
  (let y' := if m <=? 2 then y - 1 else y in
   let era := y' / 400 in
   let yoe := y' - era * 400 in
   let mp := if 2 <? m then m - 3 else m + 9 in
   let doy := (153 * mp + 2) / 5 + d - 1 in
   let doe := yoe * 365 + yoe / 4 - yoe / 100 + doy in
   era * 146097 + doe - 719468)%Z.

(** [datetime.strptime] on zero-padded dates [YYYY-MM-DD] with the format
    [%Y-%m-%d]; the value is in microseconds.  Every other pair of text and
    format is refused; the instance is used on such dates and on texts that
    are no dates at all. *)
Definition strptime_iso (s fmt : str) : result datetime :=
  if str_eqb fmt (lit "%Y-%m-%d") then
    match s with
    | [y1; y2; y3; y4; 45%N; m1; m2; 45%N; d1; d2] =>
        if forallb isdigit [y1; y2; y3; y4; m1; m2; d1; d2] then
          let y := digits_value 0 [y1; y2; y3; y4] in
          let m := digits_value 0 [m1; m2] in
          let d := digits_value 0 [d1; d2] in
          if ((1 <=? y) && (1 <=? m) && (m <=? 12) && (1 <=? d)
              && (d <=? days_in_month y m))%Z
          then Ok (days_from_civil y m d * 86400 * 1000000)%Z
          else Raise ValueError
        else Raise ValueError
    | _ => Raise ValueError
    end
  else Raise ValueError.

(** The transformer and the resolver on these instances. *)
Definition transform_item0 : datetime -> RawItem -> AnalyticRecord :=
  transform_item nfkc_stable float_decimal strptime_iso.

Definition resolve0 : list AnalyticRecord
                      -> result (list Projection * list Projection) :=
  resolve nfkc_stable.

(** 2025-03-01 12:00:00 *)
Definition now0 : datetime :=
  ((days_from_civil 2025 3 1 * 86400 + 12 * 3600) * 1000000)%Z.

Definition order (price : string) : RawOrderEntry :=
  {| oe_price := Some (lit price); oe_quantity := Some (lit "1") |}.

Definition sale (price date : string) : RawSaleEvent :=
  {| sh_price := Some (lit price); sh_operation := Some (lit "Offer");
     sh_date_time := Some (lit date); sh_date := None; sh_time := None |}.

Definition raw (sales : list RawSaleEvent) (offers targets : list RawOrderEntry)
  : RawItem :=
  {| raw_name := Some (lit "AK-47 | Redline"); raw_wear := Some (Some (lit "FT"));
     sales_history := sales; target_prices := targets;
     offer_prices := offers |}.

(** An analytic record with the fields the evaluator reads. *)
Definition record (n : string) (s : option Z) (offers targets : option (list Q))
    (pm1 pm2 : option Q) : AnalyticRecord :=
  {| name := lit n; wear := Some (lit "FT"); sales := s;
     recent_sales_prices := None;
     offer_prices_list := offers; offer_prices_quantity := None;
     target_price_list := targets; target_price_list_quantity := None;
     profit_margin_pair1 := pm1; profit_margin_pair2 := pm2;
     average_recent_sale_price := None; price_variance := None |}.

(** The same record with another wear. *)
Definition worn (w : string) (r : AnalyticRecord) : AnalyticRecord :=
  {| name := name r; wear := Some (lit w); sales := sales r;
     recent_sales_prices := recent_sales_prices r;
     offer_prices_list := offer_prices_list r;
     offer_prices_quantity := offer_prices_quantity r;
     target_price_list := target_price_list r;
     target_price_list_quantity := target_price_list_quantity r;
     profit_margin_pair1 := profit_margin_pair1 r;
     profit_margin_pair2 := profit_margin_pair2 r;
     average_recent_sale_price := average_recent_sale_price r;
     price_variance := price_variance r |}.

(* ------------------------------------------------------------------ *)
(** ** Vocabulary of the statements *)

Definition is_minimum (lo : Q) (l : list Q) : Prop :=
  In lo l /\ Forall (fun x => lo <= x) l.

Definition is_maximum (hi : Q) (l : list Q) : Prop :=
  In hi l /\ Forall (fun x => x <= hi) l.


(** The value of [item.get("sales", 0)]. *)
Definition sales_of (item : AnalyticRecord) : Z := get_default (sales item) 0%Z.

(** A margin that is set and at least [factor]. *)
Definition reaches (pm : option Q) (factor : Q) : Prop :=
  exists x, pm = Some x /\ factor <= x.


(** A word: a text that is not empty and holds no white space. *)
Definition is_word (w : str) : Prop :=
  w <> [] /\ Forall (fun c => isspace c = false) w.

(** The verdict of the candidate predicate, false if it were to raise. *)
Definition candidate_b (item : AnalyticRecord) : bool :=
  match is_candidate item with
  | Ok b => b
  | Raise _ => false
  end.

Section ResolverVocabulary.

Variable nfkc : str -> str.

(** The distinct group keys of a batch, in the order of their first
    occurrence. *)
Definition keys (items : list AnalyticRecord) : list str :=
  fold_left
    (fun acc item =>
       if existsb (str_eqb (group_key nfkc item)) acc then acc
       else acc ++ [group_key nfkc item])
    items [].

Definition in_group (k : str) (item : AnalyticRecord) : bool :=
  str_eqb k (group_key nfkc item).

(** The records of a batch filed under a key, in input order. *)
Definition group_of (items : list AnalyticRecord) (k : str)
  : list AnalyticRecord :=
  filter (in_group k) items.

(** The first candidate among the regular records of a group. *)
Definition winner (items : list AnalyticRecord) (k : str)
  : option AnalyticRecord :=
  find candidate_b
       (filter (fun item => negb (is_mine item)) (group_of items k)).

(** What a group contributes to the good and to the bad output. *)
Definition good_of (items : list AnalyticRecord) (k : str) : list Projection :=
  match winner items k with
  | Some w => [project w]
  | None => []
  end.

Definition bad_of (items : list AnalyticRecord) (k : str) : list Projection :=
  match winner items k with
  | Some _ => map project (filter is_mine (group_of items k))
  | None => map project (group_of items k)
  end.

End ResolverVocabulary.

(** UTF-8, for stating what [fix_encoding] undoes. *)
Definition encode_utf8_char (c : N) : list N :=
  (if c <? 128 then [c]
   else if c <? 2048 then [192 + c / 64; 128 + c mod 64]
   else if c <? 65536
        then [224 + c / 4096; 128 + (c / 64) mod 64; 128 + c mod 64]
        else [240 + c / 262144; 128 + (c / 4096) mod 64;
              128 + (c / 64) mod 64; 128 + c mod 64])%N.

Definition encode_utf8 (s : str) : list N := flat_map encode_utf8_char s.

(** A Unicode scalar value: below U+110000 and no surrogate. *)
Definition is_scalar (c : N) : Prop :=
  (c < 1114112 /\ ~ (55296 <= c <= 57343))%N.

(** Two neighbouring characters of a text. *)
Definition adjacent (a b : N) (s : str) : Prop :=
  exists before after, s = before ++ a :: b :: after.


(** No row of an order table has a price. *)
Definition no_priced_entry (entries : list RawOrderEntry) : Prop :=
  Forall (fun e => truthy (oe_price e) = false) entries.

(* ================================================================== *)
(** * Properties *)

(** ** Rationals *)

Lemma Qltb_lt (x y : Q) : Qltb x y = true <-> x < y.
Proof.
  unfold Qltb. rewrite negb_true_iff.
  split; intro H.
  - apply Qnot_le_lt. intro Hle. apply Qle_bool_iff in Hle. congruence.
  - destruct (Qle_bool y x) eqn:E; [|reflexivity].
    apply Qle_bool_iff in E. exfalso. exact (Qlt_not_le _ _ H E).
Qed.




(** ** [min] and [max] *)





Lemma minimum_unique (l : list Q) (a b : Q) :
  is_minimum a l -> is_minimum b l -> a == b.
Proof.
  intros [Ha Hla] [Hb Hlb].
  rewrite Forall_forall in Hla, Hlb.
  apply Qle_antisym; auto.
Qed.

Lemma maximum_unique (l : list Q) (a b : Q) :
  is_maximum a l -> is_maximum b l -> a == b.
Proof.
  intros [Ha Hla] [Hb Hlb].
  rewrite Forall_forall in Hla, Hlb.
  apply Qle_antisym; auto.
Qed.

(** ** Price consistency *)




(** ** Candidacy and the margin override *)

Lemma margin_reaches_ok (pm : option Q) (factor : Q) :
  exists b, margin_reaches pm factor = Ok b
            /\ (b = true <-> reaches pm factor).
Proof.
  destruct pm as [x|]; cbn.
  - exists (Qle_bool factor x). split; [reflexivity|].
    rewrite Qle_bool_iff. split.
    + intro H. exists x. now split.
    + intros (y & Hy & Hle). now injection Hy as ->.
  - exists false. split; [reflexivity|].
    split; [discriminate | intros (y & Hy & _); discriminate].
Qed.

Lemma passes_profit_margin_factor (item : AnalyticRecord) (factor : Q) :
  (sales_of item <? MIN_SALES_EXCEPTION)%Z = false ->
  factor = (if (MIN_SALES_NORMAL <=? sales_of item)%Z
            then PROFIT_MARGIN_NORMAL else PROFIT_MARGIN_EXCEPTION) ->
  exists b,
    passes_profit_margin item = Ok b
    /\ (b = true <-> reaches (profit_margin_pair1 item) factor
                     \/ reaches (profit_margin_pair2 item) factor).
Proof.
  intros Hs ->. unfold passes_profit_margin. fold (sales_of item).
  rewrite Hs.
  set (factor := if (MIN_SALES_NORMAL <=? sales_of item)%Z
                 then PROFIT_MARGIN_NORMAL else PROFIT_MARGIN_EXCEPTION).
  destruct (margin_reaches_ok (profit_margin_pair1 item) factor)
    as (b1 & E1 & H1).
  destruct (margin_reaches_ok (profit_margin_pair2 item) factor)
    as (b2 & E2 & H2).
  rewrite E1. cbn [rbind].
  destruct b1.
  - exists true. split; [reflexivity|].
    split; [intros _; left; now apply H1 | reflexivity].
  - rewrite E2. cbn [rbind]. exists b2.
    split; [now destruct b2|].
    rewrite H2. split; [now right|].
    intros [H|H]; [apply H1 in H; discriminate | exact H].
Qed.

Lemma passes_profit_margin_total (item : AnalyticRecord) :
  exists b, passes_profit_margin item = Ok b.
Proof.
  destruct (sales_of item <? MIN_SALES_EXCEPTION)%Z eqn:Hs.
  - exists false. unfold passes_profit_margin. fold (sales_of item).
    now rewrite Hs.
  - destruct (passes_profit_margin_factor item Hs eq_refl) as (b & E & _).
    now exists b.
Qed.

Lemma is_good_candidate_total (item : AnalyticRecord) :
  exists b, is_good_candidate item = Ok b.
Proof.
  unfold is_good_candidate.
  destruct (_ <? _)%Z; [now exists false|].
  destruct (_ || _); [now exists false | now exists true].
Qed.

Lemma is_candidate_total (item : AnalyticRecord) :
  exists b, is_candidate item = Ok b.
Proof.
  unfold is_candidate.
  destruct (is_good_candidate_total item) as (b & ->). cbn [rbind].
  destruct b; [now exists true | apply passes_profit_margin_total].
Qed.

(** C6.  [passes_profit_margin] answers false for every record with fewer
    than 7 sales; with at least 15 sales it accepts exactly when one of the two
    margins is at least 1.15, and with 7 to 14 sales exactly when one is at
    least 1.30; a record with 10 sales and a first margin of 1.25, the second
    not higher, is rejected. *)
Theorem passes_profit_margin_correct (item : AnalyticRecord) :
  exists b,
    passes_profit_margin item = Ok b
    /\ ((sales_of item < 7)%Z -> b = false)
    /\ ((15 <= sales_of item)%Z ->
        (b = true <-> reaches (profit_margin_pair1 item) 1.15
                      \/ reaches (profit_margin_pair2 item) 1.15))
    /\ ((7 <= sales_of item < 15)%Z ->
        (b = true <-> reaches (profit_margin_pair1 item) 1.30
                      \/ reaches (profit_margin_pair2 item) 1.30))
    /\ passes_profit_margin
         (record "AK-47" (Some 10%Z) (Some [1.25]) (Some [1]) (Some 1.25) None)
       = Ok false
    /\ passes_profit_margin
         (record "AK-47" (Some 10%Z) (Some [1.25; 2.2]) (Some [1; 2])
                 (Some 1.25) (Some 1.1))
       = Ok false.
Proof.
  destruct (Z.ltb_spec (sales_of item) MIN_SALES_EXCEPTION) as [Hlt|Hge].
  - exists false. unfold MIN_SALES_EXCEPTION in Hlt.
    split.
    { unfold passes_profit_margin. fold (sales_of item).
      apply Z.ltb_lt in Hlt. unfold MIN_SALES_EXCEPTION. now rewrite Hlt. }
    split; [reflexivity|].
    split; [intro; lia|]. split; [intro; lia|].
    split; reflexivity.
  - unfold MIN_SALES_EXCEPTION in Hge.
    assert (Hs : (sales_of item <? MIN_SALES_EXCEPTION)%Z = false)
      by (apply Z.ltb_ge; exact Hge).
    destruct (passes_profit_margin_factor item Hs eq_refl) as (b & E & H).
    exists b. split; [exact E|].
    split; [intro; lia|].
    split.
    { intro H15. apply Z.leb_le in H15.
      unfold MIN_SALES_NORMAL in H. rewrite H15 in H. exact H. }
    split.
    { intros [_ H15]. apply Z.leb_gt in H15.
      unfold MIN_SALES_NORMAL in H. rewrite H15 in H. exact H. }
    split; reflexivity.
Qed.

Lemma passes_profit_margin_correct_witness :
  passes_profit_margin
    (record "AK-47" (Some 20%Z) (Some [1.16]) (Some [1]) (Some 1.16) None)
  = Ok true.
Proof.
  destruct (passes_profit_margin_correct
              (record "AK-47" (Some 20%Z) (Some [1.16]) (Some [1])
                      (Some 1.16) None))
    as (b & Hb & _ & H15 & _).
  rewrite Hb. f_equal. apply H15.
  - vm_compute. discriminate.
  - left. exists 1.16. split; [reflexivity | vm_compute; discriminate].
Defined.



(** C10.  The evaluator is total on partial records: [is_good_candidate] and
    [passes_profit_margin] never raise; a record without the key [sales]
    is handled as one with [sales = 0] and rejected by both; a record without
    the two margins is rejected by [passes_profit_margin], as is the record
    the transformer returns, with 7 sales, when the margin computation was
    cut short. *)
Theorem evaluator_total (item : AnalyticRecord) :
  (exists b, is_good_candidate item = Ok b)
  /\ (exists b, passes_profit_margin item = Ok b)
  /\ (sales item = None ->
      is_good_candidate item = is_good_candidate (set_sales 0 item)
      /\ passes_profit_margin item = passes_profit_margin (set_sales 0 item)
      /\ is_good_candidate item = Ok false
      /\ passes_profit_margin item = Ok false)
  /\ (profit_margin_pair1 item = None ->
      profit_margin_pair2 item = None ->
      passes_profit_margin item = Ok false)
  /\ (let t := transform_item0 now0
                 (raw (repeat (sale "$1.00" "2025-02-20") 7)
                      [order "$3.00"] [order "$0.00"]) in
      sales t = Some 7%Z
      /\ profit_margin_pair1 t = None /\ profit_margin_pair2 t = None
      /\ passes_profit_margin t = Ok false).
Proof.
  split; [apply is_good_candidate_total|].
  split; [apply passes_profit_margin_total|].
  split; [|split].
  - intro Hs. unfold is_good_candidate, passes_profit_margin.
    cbn [sales set_sales offer_prices_list target_price_list
         profit_margin_pair1 profit_margin_pair2].
    rewrite Hs. cbn. repeat split; reflexivity.
  - intros H1 H2. unfold passes_profit_margin. rewrite H1, H2. cbn.
    destruct (_ <? _)%Z; reflexivity.
  - vm_compute. repeat split; reflexivity.
Qed.

Lemma evaluator_total_witness :
  is_good_candidate (record "AK-47" None (Some [2]) (Some [1]) (Some 2) None)
  = Ok false
  /\ passes_profit_margin
       (record "AK-47" (Some 20%Z) (Some [2]) (Some [0]) None None)
     = Ok false.
Proof.
  destruct (evaluator_total
              (record "AK-47" None (Some [2]) (Some [1]) (Some 2) None))
    as (_ & _ & Hs & _).
  destruct (evaluator_total
              (record "AK-47" (Some 20%Z) (Some [2]) (Some [0]) None None))
    as (_ & _ & _ & Hm & _).
  split.
  - apply Hs. reflexivity.
  - apply Hm; reflexivity.
Defined.

(** ** Sorting *)

Section Sorting.

Variable le : Q -> Q -> bool.
Hypothesis le_total : forall x y, le x y = false -> le y x = true.
Hypothesis le_trans :
  forall x y z, le x y = true -> le y z = true -> le x z = true.
Hypothesis le_antisym :
  forall x y, le x y = true -> le y x = true -> x == y.
Hypothesis le_compat :
  forall x x' y y', x == x' -> y == y' -> le x y = le x' y'.

Let leP (x y : Q) : Prop := le x y = true.

Lemma insert_by_perm (x : Q) (l : list Q) :
  Permutation (insert_by le x l) (x :: l).
Proof.
  induction l as [|y l IH]; cbn.
  - reflexivity.
  - destruct (le x y).
    + reflexivity.
    + rewrite IH. apply perm_swap.
Qed.

Lemma sort_by_perm (l : list Q) : Permutation (sort_by le l) l.
Proof.
  induction l as [|x l IH]; cbn.
  - reflexivity.
  - rewrite insert_by_perm. now constructor.
Qed.

Lemma insert_by_sorted (x : Q) (l : list Q) :
  Sorted leP l -> Sorted leP (insert_by le x l).
Proof.
  induction 1 as [|y l Hs IH Hhd]; cbn.
  - repeat constructor.
  - destruct (le x y) eqn:E.
    + constructor; [now constructor | now constructor].
    + constructor; [exact IH|].
      apply le_total in E.
      destruct l as [|z l]; cbn.
      * now constructor.
      * destruct (le x z); constructor; trivial.
        now inversion Hhd.
Qed.

Lemma sort_by_sorted (l : list Q) : Sorted leP (sort_by le l).
Proof.
  induction l as [|x l IH]; cbn.
  - constructor.
  - now apply insert_by_sorted.
Qed.






End Sorting.

Lemma Qle_bool_total (x y : Q) : Qle_bool x y = false -> Qle_bool y x = true.
Proof.
  intro H. apply Qle_bool_iff. apply Qlt_le_weak. apply Qltb_lt.
  unfold Qltb. now rewrite H.
Qed.



Lemma sorted_ascending (l : list Q) :
  Sorted Qle (sorted l) /\ Permutation (sorted l) l.
Proof.
  split; [|apply sort_by_perm].
  assert (H : Sorted (fun x y => Qle_bool x y = true) (sorted l))
    by (apply sort_by_sorted; apply Qle_bool_total).
  induction H as [|x s Hs IH Hhd]; constructor; trivial.
  destruct Hhd; constructor. now apply Qle_bool_iff.
Qed.

Lemma sorted_reverse_descending (l : list Q) :
  Sorted (fun x y => y <= x) (sorted_reverse l)
  /\ Permutation (sorted_reverse l) l.
Proof.
  split; [|apply sort_by_perm].
  assert (H : Sorted (fun x y => Qle_bool y x = true) (sorted_reverse l)).
  { apply (@sort_by_sorted (fun x y => Qle_bool y x)).
    intros x y. apply Qle_bool_total. }
  induction H as [|x s Hs IH Hhd]; constructor; trivial.
  destruct Hhd; constructor. now apply Qle_bool_iff.
Qed.


(** ** The transformer *)

Section TransformerFacts.

Variable nfkc : str -> str.
Variable py_float : str -> result Q.
Variable strptime : str -> str -> result datetime.
Variable now : datetime.

Local Abbreviation transform := (transform_item nfkc py_float strptime now).
Local Abbreviation parse := (parse_prices py_float).
Local Abbreviation sales_loop raw_item :=
  (fold_left (sale_step py_float strptime (now - THIRTY_DAYS)%Z)
             (sales_history raw_item) (0%Z, [])).

Ltac run_transform :=
  unfold transform_item, try_log, transform_body;
  match goal with
  | |- context [fold_left ?f ?l ?a] => destruct (fold_left f l a) as [n rs]
  end;
  unfold mbind, lift, assign, mret.

Ltac transform_cases :=
  repeat match goal with
    | |- context [match ?c with Ok _ => _ | Raise _ => _ end] => destruct c
    | |- context [match ?l with [] => _ | _ :: _ => _ end] =>
        destruct l
    | |- context [if ?b then _ else _] => destruct b
    end.

(** A sale whose price or date cannot be read is skipped. *)
Lemma sale_step_skips (t : datetime) (st : Z * list SaleInfo)
    (sh : RawSaleEvent) :
  raises (parse_price py_float (sh_price sh))
  \/ parse_date strptime (resolve_date_time sh) = None ->
  sale_step py_float strptime t st sh = st.
Proof.
  unfold sale_step. intros [[e He]|Hd].
  - rewrite He. now destruct (truthy _).
  - rewrite Hd. destruct (truthy _); [|reflexivity].
    now destruct (parse_price _ _).
Qed.

(** The keys assigned before the order tables are read are always set. *)
Lemma transform_item_head (raw_item : RawItem) :
  name (transform raw_item) = clean_name nfkc (raw_name raw_item)
  /\ sales (transform raw_item) = Some (fst (sales_loop raw_item))
  /\ recent_sales_prices (transform raw_item)
     = Some (snd (sales_loop raw_item)).
Proof.
  run_transform. transform_cases; cbn; repeat split; reflexivity.
Qed.

(** An offer price that is not a number ends the transformation: no key
    after [recent_sales_prices] is assigned. *)
Lemma transform_item_offers_raise (raw_item : RawItem) :
  raises (parse (offer_prices raw_item)) ->
  offer_prices_list (transform raw_item) = None
  /\ target_price_list (transform raw_item) = None
  /\ profit_margin_pair1 (transform raw_item) = None
  /\ profit_margin_pair2 (transform raw_item) = None
  /\ average_recent_sale_price (transform raw_item) = None
  /\ price_variance (transform raw_item) = None.
Proof.
  intros [e He]. run_transform. rewrite He. cbn. repeat split; reflexivity.
Qed.

(** A target price that is not a number ends it after the offer keys. *)
Lemma transform_item_targets_raise (raw_item : RawItem) (offers : list Q) :
  parse (offer_prices raw_item) = Ok offers ->
  raises (parse (target_prices raw_item)) ->
  offer_prices_list (transform raw_item) = Some (firstn 3 (sorted offers))
  /\ target_price_list (transform raw_item) = None
  /\ profit_margin_pair1 (transform raw_item) = None
  /\ profit_margin_pair2 (transform raw_item) = None
  /\ average_recent_sale_price (transform raw_item) = None
  /\ price_variance (transform raw_item) = None.
Proof.
  intros Ho [e He]. run_transform. rewrite Ho, He. cbn.
  repeat split; reflexivity.
Qed.


(** The first margin: the defaults stand in for a missing offer or target,
    and a target of zero leaves the key unset. *)
Lemma transform_item_margin1 (raw_item : RawItem) (offers targets : list Q) :
  parse (offer_prices raw_item) = Ok offers ->
  parse (target_prices raw_item) = Ok targets ->
  profit_margin_pair1 (transform raw_item)
  = match py_div (nth_or_default (firstn 3 (sorted offers)) 0)
                 (nth_or_default (firstn 3 (sorted_reverse targets)) 0) with
    | Ok m => Some m
    | Raise _ => None
    end.
Proof.
  intros Ho Ht. run_transform. rewrite Ho, Ht.
  transform_cases; cbn; reflexivity.
Qed.

End TransformerFacts.


(** C2.  The code departs from the claim.  The item has three sales, the
    second with the price [$1,250.00], which [float] refuses, and the third
    with an unreadable date, and two offers, the second again at [$1,250.00]:
    the two sales are skipped and [sales] is 1, yet the same price among the
    offers ends the transformation, and none of the offer list, the target
    list, the margins, the mean and the variance is set. *)
Theorem transform_item_malformed_offer :
  let raw_item :=
    raw [sale "$1.50" "2025-02-20"; sale "$1,250.00" "2025-02-21";
         sale "$2.00" "yesterday"]
        [order "$2.00"; order "$1,250.00"] [order "$1.00"] in
  let t := transform_item0 now0 raw_item in
  sales t = Some 1%Z
  /\ offer_prices_list t = None /\ offer_prices_quantity t = None
  /\ target_price_list t = None /\ target_price_list_quantity t = None
  /\ profit_margin_pair1 t = None /\ profit_margin_pair2 t = None
  /\ average_recent_sale_price t = None /\ price_variance t = None.
Proof. vm_compute. repeat split; reflexivity. Qed.

(** C3.  The code departs from the claim.  A missing offer or target is
    replaced by 0.01 (an item with one offer at 3.00 and no target gets the
    margins 300 and 1), but a target that is present with the price 0.00 is
    used as the divisor: the division raises [ZeroDivisionError] and the
    margins are left unset. *)
Theorem transform_item_zero_target :
  let t := transform_item0 now0 (raw [] [order "$3.00"] [order "$0.00"]) in
  let t' := transform_item0 now0 (raw [] [order "$3.00"] []) in
  target_price_list t = Some [0]
  /\ py_div (nth_or_default [3] 0) (nth_or_default [0] 0)
     = Raise ZeroDivisionError
  /\ profit_margin_pair1 t = None /\ profit_margin_pair2 t = None
  /\ profit_margin_pair1 t' = Some 300 /\ profit_margin_pair2 t' = Some 1.
Proof. vm_compute. repeat split; reflexivity. Qed.

(** C8.  The code departs from the claim.  With the offers 3.00, 1.00, 2.00
    and 5.00 the offer list is [1, 2, 3]; with the targets [$4.00] and
    [$1,250.00] the one target that [float] reads is 4, yet the record has no
    target list at all; and an offer at [$1,250.00] leaves the record without
    either list. *)
Theorem transform_item_malformed_target :
  let offers := [order "$3.00"; order "$1.00"; order "$2.00"; order "$5.00"] in
  let t :=
    transform_item0 now0 (raw [] offers [order "$4.00"; order "$1,250.00"]) in
  let t' := transform_item0 now0 (raw [] (order "$1,250.00" :: offers) []) in
  offer_prices_list t = Some [1; 2; 3]
  /\ parse_price float_decimal (oe_price (order "$4.00")) = Ok 4
  /\ raises (parse_price float_decimal (oe_price (order "$1,250.00")))
  /\ target_price_list t = None
  /\ offer_prices_list t' = None /\ target_price_list t' = None.
Proof.
  vm_compute. repeat split; try reflexivity. now exists ValueError.
Qed.

(** ** The name normaliser *)

Lemma split_words (s : str) : Forall is_word (split s).
Proof.
  induction s as [|c s IH]; cbn.
  - constructor.
  - destruct (isspace c) eqn:Ec; [exact IH|].
    destruct s as [|c' s'].
    + repeat constructor; [discriminate | exact Ec].
    + destruct (isspace c') eqn:Ec'.
      * constructor; [|exact IH].
        split; [discriminate | repeat constructor; exact Ec].
      * destruct (split (c' :: s')) as [|w ws].
        -- repeat constructor; [discriminate | exact Ec].
        -- inversion IH as [|? ? [Hne Hw] Hws]; subst.
           constructor; [|exact Hws].
           split; [discriminate | now constructor].
Qed.

Lemma split_word_then (w t : str) :
  is_word w -> split (w ++ SPACE ++ t) = w :: split t.
Proof.
  intros [Hne Hw]. induction w as [|c w IH]; [congruence|].
  inversion Hw as [|? ? Ec Hw']; subst.
  destruct w as [|c' w'].
  - cbn. now rewrite Ec.
  - inversion Hw' as [|? ? Ec' _]; subst.
    change ((c :: c' :: w') ++ SPACE ++ t)
      with (c :: c' :: (w' ++ SPACE ++ t)).
    change (split (c :: c' :: w' ++ SPACE ++ t))
      with (if isspace c then split (c' :: w' ++ SPACE ++ t)
            else if isspace c' then [c] :: split (c' :: w' ++ SPACE ++ t)
                 else match split (c' :: w' ++ SPACE ++ t) with
                      | w :: ws => (c :: w) :: ws
                      | [] => [[c]]
                      end).
    rewrite Ec, Ec'.
    change (c' :: w' ++ SPACE ++ t) with ((c' :: w') ++ SPACE ++ t).
    rewrite IH; [reflexivity | discriminate | exact Hw'].
Qed.

Lemma split_word (w : str) : is_word w -> split w = [w].
Proof.
  intros [Hne Hw]. induction w as [|c w IH]; [congruence|].
  inversion Hw as [|? ? Ec Hw']; subst.
  destruct w as [|c' w'].
  - cbn. now rewrite Ec.
  - inversion Hw' as [|? ? Ec' _]; subst.
    change (split (c :: c' :: w'))
      with (if isspace c then split (c' :: w')
            else if isspace c' then [c] :: split (c' :: w')
                 else match split (c' :: w') with
                      | w :: ws => (c :: w) :: ws
                      | [] => [[c]]
                      end).
    rewrite Ec, Ec'. rewrite IH; [reflexivity | discriminate | exact Hw'].
Qed.

Lemma split_join (ws : list str) :
  Forall is_word ws -> split (join SPACE ws) = ws.
Proof.
  induction 1 as [|w ws Hw Hws IH]; [reflexivity|].
  destruct ws as [|w2 ws].
  - cbn. now apply split_word.
  - change (join SPACE (w :: w2 :: ws))
      with (w ++ SPACE ++ join SPACE (w2 :: ws)).
    rewrite split_word_then by exact Hw. now rewrite IH.
Qed.

(** Collapsing the white space twice is collapsing it once. *)
Lemma join_split_idempotent (s : str) :
  join SPACE (split (join SPACE (split s))) = join SPACE (split s).
Proof.
  now rewrite split_join by apply split_words.
Qed.

Lemma remove_char_absent (c : N) (s : str) :
  contains c s = false -> remove_char c s = s.
Proof.
  unfold contains, remove_char. induction s as [|x s IH]; cbn; [reflexivity|].
  intro H. apply orb_false_iff in H as [Hx Hs].
  rewrite N.eqb_sym, Hx. cbn. now rewrite IH.
Qed.

Lemma clean_name_shape (nfkc : str -> str) (name : option str) :
  exists s, clean_name nfkc name = join SPACE (split s).
Proof.
  destruct name as [[|c name]|].
  - now exists [].
  - eexists. reflexivity.
  - now exists [].
Qed.

(** C4, amended.  Cleaning a cleaned name changes nothing when the cleaned
    name is left alone by the re-encoding step (it shows no artifact, or
    cannot be read as UTF-8), is free of the trademark sign and is in
    normal form. *)
Theorem clean_name_idempotent_when_settled (nfkc : str -> str) (x : option str) :
  let y := clean_name nfkc x in
  fix_encoding y = y ->
  contains TRADE_MARK y = false ->
  nfkc y = y ->
  clean_name nfkc (Some y) = y.
Proof.
  intros y Hfix Htm Hnf.
  destruct (clean_name_shape nfkc x) as [s Hs]. fold y in Hs.
  destruct y as [|c y'] eqn:Ey; [reflexivity|].
  unfold clean_name. rewrite Hfix, (remove_char_absent _ _ Htm), Hnf.
  rewrite Hs. apply join_split_idempotent.
Qed.

Lemma clean_name_idempotent_when_settled_witness :
  let x := Some (lit "StatTrak" ++ [226; 132; 162]%N ++ lit "  M249 | Magma ") in
  clean_name nfkc_stable x = lit "StatTrak M249 | Magma"
  /\ clean_name nfkc_stable (Some (clean_name nfkc_stable x))
     = clean_name nfkc_stable x.
Proof.
  split; [vm_compute; reflexivity|].
  apply (clean_name_idempotent_when_settled nfkc_stable
           (Some (lit "StatTrak" ++ [226; 132; 162]%N
                  ++ lit "  M249 | Magma ")));
    vm_compute; reflexivity.
Defined.

(** C4, as stated, fails: the name made of U+00E2, the trademark sign and
    two cent signs is cleaned to U+00E2 followed by the two cent signs, which
    is the UTF-8 form of U+28A2 read as Latin-1, so that cleaning it once more
    yields U+28A2. *)
Lemma clean_name_not_idempotent :
  let x := [226; 8482; 162; 162]%N in
  clean_name nfkc_stable (Some x) = [226; 162; 162]%N
  /\ clean_name nfkc_stable (Some (clean_name nfkc_stable (Some x)))
     = [10402]%N
  /\ clean_name nfkc_stable (Some (clean_name nfkc_stable (Some x)))
     <> clean_name nfkc_stable (Some x).
Proof.
  vm_compute. repeat split; discriminate.
Qed.

(** ** The grouping resolver *)

Lemma str_eqb_eq (s t : str) : str_eqb s t = true <-> s = t.
Proof.
  revert t. induction s as [|a s IH]; intros [|b t]; cbn;
    try (split; [discriminate | congruence]).
  - split; reflexivity.
  - rewrite andb_true_iff, N.eqb_eq, IH. split.
    + intros [-> ->]. reflexivity.
    + intro H. injection H as -> ->. now split.
Qed.

Lemma str_eqb_refl (s : str) : str_eqb s s = true.
Proof. now apply str_eqb_eq. Qed.

Lemma str_eqb_neq (s t : str) : str_eqb s t = false <-> s <> t.
Proof.
  rewrite <- str_eqb_eq. destruct (str_eqb s t); split; congruence.
Qed.

Lemma existsb_str_eqb (k : str) (ks : list str) :
  existsb (str_eqb k) ks = true <-> In k ks.
Proof.
  rewrite existsb_exists. split.
  - intros (x & Hx & E). apply str_eqb_eq in E. now subst.
  - intro H. exists k. split; [exact H | apply str_eqb_refl].
Qed.

Lemma first_candidate_find (l : list AnalyticRecord) :
  first_candidate l = Ok (option_map project (find candidate_b l)).
Proof.
  induction l as [|item l IH]; [reflexivity|].
  cbn. unfold candidate_b.
  destruct (is_candidate_total item) as (b & ->). cbn [rbind].
  destruct b; [reflexivity | exact IH].
Qed.

Section ResolverFacts.

Variable nfkc : str -> str.

Local Abbreviation key := (group_key nfkc).
Local Abbreviation keys' := (keys nfkc).
Local Abbreviation in_group' := (in_group nfkc).
Local Abbreviation group_of' := (group_of nfkc).
Local Abbreviation winner' := (winner nfkc).
Local Abbreviation good_of' := (good_of nfkc).
Local Abbreviation bad_of' := (bad_of nfkc).
Local Abbreviation build_groups' := (build_groups nfkc).
Local Abbreviation resolve' := (resolve nfkc).

Lemma in_group_iff (k : str) (item : AnalyticRecord) :
  in_group' k item = true <-> k = key item.
Proof. apply str_eqb_eq. Qed.

Lemma keys_snoc (l : list AnalyticRecord) (x : AnalyticRecord) :
  keys' (l ++ [x])
  = if existsb (str_eqb (key x)) (keys' l) then keys' l else keys' l ++ [key x].
Proof. unfold keys. now rewrite fold_left_app. Qed.

Lemma build_groups_snoc (l : list AnalyticRecord) (x : AnalyticRecord) :
  build_groups' (l ++ [x]) = group_append (build_groups' l) (key x) x.
Proof. unfold build_groups. now rewrite fold_left_app. Qed.

Lemma group_of_snoc (l : list AnalyticRecord) (x : AnalyticRecord) (k : str) :
  group_of' (l ++ [x]) k
  = group_of' l k ++ (if in_group' k x then [x] else []).
Proof. unfold group_of. now rewrite filter_app. Qed.

Lemma keys_spec (l : list AnalyticRecord) :
  NoDup (keys' l)
  /\ forall k, In k (keys' l) <-> exists item, In item l /\ key item = k.
Proof.
  induction l as [|x l [IHnd IHin]] using rev_ind.
  - split; [constructor|]. intro k. split; [intros [] | intros (i & [] & _)].
  - rewrite keys_snoc.
    destruct (existsb (str_eqb (key x)) (keys' l)) eqn:E.
    + split; [exact IHnd|]. intro k. rewrite IHin. split.
      * intros (i & Hi & Hk). exists i. split; [|exact Hk].
        apply in_or_app. now left.
      * intros (i & Hi & Hk). apply in_app_or in Hi as [Hi|[<-|[]]].
        -- now exists i.
        -- apply existsb_str_eqb in E. apply IHin in E. now subst.
    + assert (Hnot : ~ In (key x) (keys' l)).
      { intro H. apply existsb_str_eqb in H. congruence. }
      split.
      * apply NoDup_app; [exact IHnd | repeat constructor; intros [] |].
        intros k Hk [<-|[]]. contradiction.
      * intro k. rewrite in_app_iff, IHin. split.
        -- intros [(i & Hi & Hk)|[<-|[]]].
           ++ exists i. split; [apply in_or_app; now left | exact Hk].
           ++ exists x. split; [apply in_or_app; right; now left | reflexivity].
        -- intros (i & Hi & Hk). apply in_app_or in Hi as [Hi|[<-|[]]].
           ++ left. now exists i.
           ++ right. now left.
Qed.

Lemma group_append_present (l : list AnalyticRecord) (x : AnalyticRecord)
    (ks : list str) :
  NoDup ks -> In (key x) ks ->
  group_append (map (fun k => (k, group_of' l k)) ks) (key x) x
  = map (fun k => (k, group_of' (l ++ [x]) k)) ks.
Proof.
  induction 1 as [|k ks Hk Hnd IH]; intros Hin; [destruct Hin|].
  cbn. rewrite group_of_snoc. unfold in_group at 1.
  destruct (str_eqb k (key x)) eqn:E.
  - f_equal. apply map_ext_in. intros k' Hk'.
    rewrite group_of_snoc.
    assert (Hne : in_group' k' x = false).
    { apply str_eqb_neq. apply str_eqb_eq in E. subst k.
      intros ->. contradiction. }
    rewrite Hne, app_nil_r. reflexivity.
  - rewrite app_nil_r. f_equal. apply IH.
    destruct Hin as [->|Hin]; [|exact Hin].
    rewrite str_eqb_refl in E. discriminate.
Qed.

Lemma group_append_absent (l : list AnalyticRecord) (x : AnalyticRecord)
    (ks : list str) :
  ~ In (key x) ks ->
  group_append (map (fun k => (k, group_of' l k)) ks) (key x) x
  = map (fun k => (k, group_of' (l ++ [x]) k)) ks ++ [(key x, [x])].
Proof.
  induction ks as [|k ks IH]; intro Hnot; [reflexivity|].
  cbn. rewrite group_of_snoc. unfold in_group at 1.
  assert (E : str_eqb k (key x) = false).
  { apply str_eqb_neq. intros ->. apply Hnot. now left. }
  rewrite E, app_nil_r. f_equal. apply IH.
  intro H. apply Hnot. now right.
Qed.

(** The dictionary of [main]: one entry per key, in the order of first
    occurrence, holding the records filed under the key in input order. *)
Lemma build_groups_spec (l : list AnalyticRecord) :
  build_groups' l = map (fun k => (k, group_of' l k)) (keys' l).
Proof.
  induction l as [|x l IH] using rev_ind; [reflexivity|].
  rewrite build_groups_snoc, IH, keys_snoc.
  destruct (keys_spec l) as [Hnd Hin].
  destruct (existsb (str_eqb (key x)) (keys' l)) eqn:E.
  - apply group_append_present; [exact Hnd | now apply existsb_str_eqb].
  - assert (Hnot : ~ In (key x) (keys' l)).
    { intro H. apply existsb_str_eqb in H. congruence. }
    rewrite group_append_absent by exact Hnot.
    rewrite map_app. cbn. do 3 f_equal.
    rewrite group_of_snoc. unfold in_group at 1.
    rewrite str_eqb_refl.
    assert (Hnil : group_of' l (key x) = []).
    { unfold group_of.
      destruct (filter (in_group' (key x)) l) as [|i r] eqn:F; [reflexivity|].
      assert (Hi : In i (filter (in_group' (key x)) l))
        by (rewrite F; now left).
      apply filter_In in Hi as [Hi Hk]. apply in_group_iff in Hk.
      exfalso. apply Hnot. apply Hin. now exists i. }
    now rewrite Hnil.
Qed.

Lemma resolve_groups_spec (l : list AnalyticRecord) (ks : list str)
    (out : list Projection * list Projection) :
  resolve_groups (map (fun k => (k, group_of' l k)) ks) out
  = Ok (fst out ++ flat_map (good_of' l) ks,
        snd out ++ flat_map (bad_of' l) ks).
Proof.
  revert out. induction ks as [|k ks IH]; intros [good bad]; cbn.
  - now rewrite !app_nil_r.
  - unfold resolve_group. rewrite first_candidate_find.
    unfold good_of, bad_of, winner.
    destruct (find candidate_b _) as [w|]; cbn [option_map rbind fst snd].
    + rewrite IH. cbn [fst snd]. now rewrite <- !app_assoc.
    + rewrite IH. cbn [fst snd]. now rewrite <- !app_assoc.
Qed.

(** The resolver never raises, and its two outputs are the contributions of
    the groups in the order of the keys. *)
Lemma resolve_spec (l : list AnalyticRecord) :
  resolve' l = Ok (flat_map (good_of' l) (keys' l),
                   flat_map (bad_of' l) (keys' l)).
Proof.
  unfold resolve. rewrite build_groups_spec. apply resolve_groups_spec.
Qed.


Lemma find_filter {A : Type} (p q : A -> bool) (l : list A) :
  find p (filter q l) = find (fun x => q x && p x) l.
Proof.
  induction l as [|x l IH]; cbn; [reflexivity|].
  destruct (q x); cbn; [|exact IH].
  destruct (p x); [reflexivity | exact IH].
Qed.

(** The winner of a key is the first record of the batch that is filed under
    the key, regular and a candidate. *)
Lemma winner_first (l : list AnalyticRecord) (k : str) :
  winner' l k
  = find (fun r => in_group' k r && (negb (is_mine r) && candidate_b r)) l.
Proof.
  unfold winner, group_of. rewrite !find_filter. reflexivity.
Qed.

Lemma winner_some (l : list AnalyticRecord) (k : str) (w : AnalyticRecord) :
  winner' l k = Some w ->
  In w l /\ key w = k /\ is_mine w = false /\ candidate_b w = true.
Proof.
  rewrite winner_first. intro H. apply find_some in H as [Hin Hp].
  apply andb_true_iff in Hp as [Hk Hp].
  apply andb_true_iff in Hp as [Hm Hc].
  apply in_group_iff in Hk. apply negb_true_iff in Hm. now repeat split.
Qed.

Lemma group_key_name (a b : AnalyticRecord) :
  name a = name b -> key a = key b.
Proof. unfold group_key. now intros ->. Qed.

Lemma is_mine_name (a b : AnalyticRecord) :
  name a = name b -> is_mine a = is_mine b.
Proof. unfold is_mine. now intros ->. Qed.

Lemma project_name (a b : AnalyticRecord) :
  project a = project b -> name a = name b.
Proof. unfold project. now intros [= -> _]. Qed.

Lemma in_good (l : list AnalyticRecord) (ks : list str) (p : Projection) :
  In p (flat_map (good_of' l) ks)
  <-> exists k w, In k ks /\ winner' l k = Some w /\ p = project w.
Proof.
  rewrite in_flat_map. unfold good_of. split.
  - intros (k & Hk & Hp). destruct (winner' l k) as [w|] eqn:E; [|destruct Hp].
    destruct Hp as [<-|[]]. now exists k, w.
  - intros (k & w & Hk & E & ->). exists k. split; [exact Hk|].
    rewrite E. now left.
Qed.

Lemma in_bad (l : list AnalyticRecord) (ks : list str) (p : Projection) :
  In p (flat_map (bad_of' l) ks)
  <-> exists k r, In k ks /\ In r l /\ key r = k /\ p = project r
                  /\ (is_mine r = true \/ winner' l k = None).
Proof.
  rewrite in_flat_map. unfold bad_of, group_of. split.
  - intros (k & Hk & Hp). destruct (winner' l k) as [w|] eqn:E.
    + apply in_map_iff in Hp as (r & <- & Hr).
      apply filter_In in Hr as [Hr Hm]. apply filter_In in Hr as [Hr Hg].
      apply in_group_iff in Hg. exists k, r. repeat split; auto.
    + apply in_map_iff in Hp as (r & <- & Hr).
      apply filter_In in Hr as [Hr Hg].
      apply in_group_iff in Hg. exists k, r. repeat split; auto.
  - intros (k & r & Hk & Hr & Hkr & -> & H). exists k. split; [exact Hk|].
    assert (Hg : In r (filter (in_group' k) l)).
    { apply filter_In. split; [exact Hr | now apply in_group_iff]. }
    destruct (winner' l k) as [w|].
    + destruct H as [Hm|H]; [|discriminate].
      apply in_map. apply filter_In. now split.
    + now apply in_map.
Qed.

End ResolverFacts.

Section ResolverOutputs.

Variable nfkc : str -> str.
Variable items : list AnalyticRecord.

Local Abbreviation key := (group_key nfkc).
Local Abbreviation good := (flat_map (good_of nfkc items) (keys nfkc items)).
Local Abbreviation bad := (flat_map (bad_of nfkc items) (keys nfkc items)).
Local Abbreviation winner_of k := (winner nfkc items k).

Lemma key_listed (item : AnalyticRecord) :
  In item items -> In (key item) (keys nfkc items).
Proof.
  intro H. apply (keys_spec nfkc items). now exists item.
Qed.

Lemma good_is_winner (p : Projection) :
  In p good ->
  exists w, p = project w /\ In w items /\ is_mine w = false
            /\ candidate_b w = true /\ winner_of (key w) = Some w.
Proof.
  intro H. apply in_good in H as (k & w & Hk & E & ->).
  destruct (@winner_some nfkc items k w E) as (Hin & Hkw & Hm & Hc).
  exists w. subst k. now repeat split.
Qed.

Lemma rejected_in_bad (item : AnalyticRecord) :
  In item items ->
  is_mine item = true \/ winner_of (key item) = None ->
  In (project item) bad /\ ~ In (project item) good.
Proof.
  intros Hin H. split.
  - apply in_bad. exists (key item), item.
    repeat split; auto using key_listed.
  - intro Hg. apply good_is_winner in Hg as (w & Hp & _ & Hm & _ & Hw).
    apply project_name in Hp.
    rewrite (@is_mine_name _ _ Hp), (@group_key_name nfkc _ _ Hp) in H.
    destruct H; congruence.
Qed.




Lemma filter_disjoint_length {A : Type} (p q : A -> bool) (l : list A) :
  (forall x, In x l -> p x = true -> q x = false) ->
  (length (filter p l) + length (filter q l)
   = length (filter (fun x => p x || q x) l))%nat.
Proof.
  induction l as [|x l IH]; intro H; [reflexivity|].
  cbn. assert (Hx := H x (or_introl eq_refl)).
  assert (IH' := IH (fun y Hy => H y (or_intror Hy))).
  destruct (p x) eqn:Ep; cbn.
  - rewrite (Hx eq_refl). cbn. lia.
  - destruct (q x); cbn; lia.
Qed.

Lemma groups_length (ks : list str) :
  NoDup ks ->
  length (flat_map (group_of nfkc items) ks)
  = length (filter (fun r => existsb (fun k => in_group nfkc k r) ks) items).
Proof.
  induction 1 as [|k ks Hk Hks IH]; cbn.
  - induction items as [|x l IHl]; [reflexivity | exact IHl].
  - rewrite length_app, IH. unfold group_of.
    apply filter_disjoint_length.
    intros r _ Hr. apply in_group_iff in Hr. subst k.
    destruct (existsb _ ks) eqn:E; [|reflexivity].
    apply existsb_exists in E as (k' & Hk' & E).
    apply in_group_iff in E. subst k'. contradiction.
Qed.

Lemma outputs_length_group (k : str) :
  (length (good_of nfkc items k) + length (bad_of nfkc items k)
   <= length (group_of nfkc items k))%nat.
Proof.
  unfold good_of, bad_of. destruct (winner nfkc items k) as [w|] eqn:E.
  - rewrite length_map. cbn [length].
    rewrite <- (filter_length is_mine (group_of nfkc items k)).
    unfold winner in E. apply find_some in E as [Hin _].
    destruct (filter (fun item => negb (is_mine item)) _); [destruct Hin|].
    cbn [length]. lia.
  - rewrite length_map. cbn. lia.
Qed.

(** The two outputs never hold more entries than the batch has records. *)
Lemma outputs_length : (length good + length bad <= length items)%nat.
Proof.
  destruct (keys_spec nfkc items) as [Hnd Hin].
  assert (Hall : length (flat_map (group_of nfkc items) (keys nfkc items))
                 = length items).
  { rewrite (@groups_length _ Hnd). f_equal.
    apply forallb_filter_id. apply forallb_forall. intros r Hr.
    apply existsb_exists. exists (key r). split.
    - apply Hin. now exists r.
    - now apply in_group_iff. }
  rewrite <- Hall. clear Hall Hnd Hin.
  induction (keys nfkc items) as [|k ks IH]; cbn; [lia|].
  rewrite !length_app. pose proof (outputs_length_group k). lia.
Qed.

End ResolverOutputs.

Lemma candidate_b_true (item : AnalyticRecord) :
  candidate_b item = true <-> is_candidate item = Ok true.
Proof.
  unfold candidate_b. destruct (is_candidate_total item) as (b & ->).
  split; [now intros -> | now intros [= ->]].
Qed.


Lemma filter_permutation {A : Type} (p : A -> bool) (l l' : list A) :
  Permutation l l' -> Permutation (filter p l) (filter p l').
Proof.
  induction 1 as [| x l l' _ IH | x y l | l l' l'' _ IH1 _ IH2]; cbn.
  - constructor.
  - destruct (p x); [now constructor | exact IH].
  - destruct (p x), (p y); try reflexivity. apply perm_swap.
  - now transitivity (filter p l').
Qed.

Lemma nodup_singleton (k : str) (ks : list str) :
  NoDup ks -> In k ks -> (forall x, In x ks -> x = k) -> ks = [k].
Proof.
  intros Hnd Hin Hall.
  destruct ks as [|a ks]; [destruct Hin|].
  assert (a = k) by (apply Hall; now left). subst a.
  destruct ks as [|b ks]; [reflexivity|].
  assert (b = k) by (apply Hall; right; now left). subst b.
  inversion Hnd as [|? ? Hnot _]; subst. exfalso. apply Hnot. now left.
Qed.




Lemma good_not_mine (nfkc : str -> str) (items : list AnalyticRecord)
    (p : Projection) :
  In p (flat_map (good_of nfkc items) (keys nfkc items)) ->
  endswith (p_name p) MINE_SUFFIX = false.
Proof.
  intro H. apply good_is_winner in H as (w & -> & _ & Hm & _).
  exact Hm.
Qed.

(** A batch that is one group with a single regular record, which
    qualifies: the regular record is the good output and the self-owned
    records are the bad output. *)
Lemma resolve_single_group (nfkc : str -> str) (items : list AnalyticRecord)
    (r : AnalyticRecord) :
  In r items ->
  (forall item, In item items -> group_key nfkc item = group_key nfkc r) ->
  filter (fun item => negb (is_mine item)) items = [r] ->
  is_candidate r = Ok true ->
  resolve nfkc items = Ok ([project r], map project (filter is_mine items)).
Proof.
  intros Hin Hkey Hreg Hcand.
  rewrite resolve_spec.
  destruct (keys_spec nfkc items) as [Hnd Hk].
  assert (Hks : keys nfkc items = [group_key nfkc r]).
  { apply nodup_singleton; [exact Hnd | now apply key_listed |].
    intros k Hin'. apply Hk in Hin' as (i & Hi & <-). now apply Hkey. }
  assert (Hg : group_of nfkc items (group_key nfkc r) = items).
  { unfold group_of. apply forallb_filter_id. apply forallb_forall.
    intros i Hi. apply in_group_iff. symmetry. now apply Hkey. }
  assert (Hw : winner nfkc items (group_key nfkc r) = Some r).
  { unfold winner. rewrite Hg, Hreg. cbn.
    apply candidate_b_true in Hcand. now rewrite Hcand. }
  rewrite Hks. cbn. unfold good_of, bad_of. rewrite Hw, Hg.
  now rewrite !app_nil_r.
Qed.

(** C9.  No record whose name ends in [" MINE"] is ever emitted to the good
    output; every self-owned record of the batch is emitted to the bad
    output, whatever its own candidacy and whether or not its group has a
    winner; a group of one qualifying regular record and two self-owned
    variants, in any order, yields exactly 1 good entry, the regular record,
    and 2 bad entries, the two variants. *)
Theorem self_owned_never_good (nfkc : str -> str)
    (items : list AnalyticRecord) :
  exists good bad,
    resolve nfkc items = Ok (good, bad)
    /\ (forall p, In p good -> endswith (p_name p) MINE_SUFFIX = false)
    /\ (forall item,
          In item items -> is_mine item = true ->
          In (project item) bad /\ ~ In (project item) good)
    /\ (forall r m1 m2,
          Permutation items [r; m1; m2] ->
          is_mine r = false -> is_candidate r = Ok true ->
          is_mine m1 = true -> is_mine m2 = true ->
          group_key nfkc m1 = group_key nfkc r ->
          group_key nfkc m2 = group_key nfkc r ->
          good = [project r] /\ length bad = 2%nat
          /\ Permutation bad [project m1; project m2]).
Proof.
  eexists. eexists. split; [apply resolve_spec|].
  split; [apply good_not_mine|].
  split.
  { intros item Hin Hm. apply rejected_in_bad; [exact Hin | now left]. }
  intros r m1 m2 Hperm Hr Hc Hm1 Hm2 Hk1 Hk2.
  assert (Hreg : filter (fun item => negb (is_mine item)) items = [r]).
  { apply Permutation_length_1_inv. symmetry.
    rewrite (filter_permutation (fun item => negb (is_mine item)) Hperm).
    cbn. now rewrite Hr, Hm1, Hm2. }
  assert (Hmine : Permutation (filter is_mine items) [m1; m2]).
  { rewrite (filter_permutation is_mine Hperm).
    cbn. now rewrite Hr, Hm1, Hm2. }
  assert (Hres : resolve nfkc items
                 = Ok ([project r], map project (filter is_mine items))).
  { apply resolve_single_group; trivial.
    - apply Permutation_in with [r; m1; m2]; [now symmetry | now left].
    - intros i Hi. apply (Permutation_in _ Hperm) in Hi.
      destruct Hi as [<-|[<-|[<-|[]]]]; auto. }
  rewrite resolve_spec in Hres. injection Hres as -> ->.
  split; [reflexivity|]. split.
  - rewrite length_map. now rewrite (Permutation_length Hmine).
  - exact (Permutation_map project Hmine).
Qed.

Lemma self_owned_never_good_witness :
  let r := record "AK-47" (Some 20%Z) (Some [2]) (Some [1]) (Some 2) None in
  let m1 := record "AK-47 MINE" (Some 20%Z) (Some [2]) (Some [1]) (Some 2) None in
  let m2 := worn "MW" m1 in
  is_candidate m1 = Ok true
  /\ resolve0 [m1; r; m2] = Ok ([project r], [project m1; project m2]).
Proof.
  intros r m1 m2. split; [reflexivity|].
  destruct (self_owned_never_good nfkc_stable [m1; r; m2])
    as (good & bad & Hres & _ & _ & H).
  assert (Hperm : Permutation [m1; r; m2] [r; m1; m2]) by apply perm_swap.
  assert (Hr : is_mine r = false) by reflexivity.
  assert (Hc : is_candidate r = Ok true) by reflexivity.
  assert (Hm1 : is_mine m1 = true) by reflexivity.
  assert (Hm2 : is_mine m2 = true) by reflexivity.
  assert (Hk1 : group_key nfkc_stable m1 = group_key nfkc_stable r)
    by (vm_compute; reflexivity).
  assert (Hk2 : group_key nfkc_stable m2 = group_key nfkc_stable r)
    by (vm_compute; reflexivity).
  destruct (H r m1 m2 Hperm Hr Hc Hm1 Hm2 Hk1 Hk2) as (Hg & _ & _).
  unfold resolve0. rewrite Hres, Hg. f_equal. f_equal.
  vm_compute in Hres. now injection Hres as _ <-.
Defined.

(* ================================================================== *)
(** * Further properties of the code *)

(** ** Names: white space, the owner's suffix *)

Lemma is_word_not_space (w : str) (c : N) (rest : str) :
  is_word w -> w = c :: rest -> isspace c = false.
Proof.
  intros [_ Hw] ->. now inversion Hw.
Qed.

Lemma join_words_head (ws : list str) :
  Forall is_word ws ->
  join SPACE ws = [] \/ exists c rest, join SPACE ws = c :: rest
                                        /\ isspace c = false.
Proof.
  intros H. destruct H as [|w ws Hw Hws]; [now left|]. right.
  destruct w as [|c w'] eqn:Ew; [destruct Hw as [Hne _]; congruence|].
  assert (Hc : isspace c = false) by exact (is_word_not_space Hw eq_refl).
  destruct ws as [|w2 ws]; cbn; eauto.
Qed.

Lemma lstrip_join (ws : list str) :
  Forall is_word ws -> lstrip (join SPACE ws) = join SPACE ws.
Proof.
  intro H. destruct (join_words_head H) as [->|(c & rest & -> & Hc)].
  - reflexivity.
  - cbn. now rewrite Hc.
Qed.

Lemma join_snoc (ws : list str) (w : str) :
  ws <> [] -> join SPACE (ws ++ [w]) = join SPACE ws ++ SPACE ++ w.
Proof.
  induction ws as [|a ws IH]; [congruence|]. intros _.
  destruct ws as [|b ws]; [reflexivity|].
  change (join SPACE ((a :: b :: ws) ++ [w]))
    with (a ++ SPACE ++ join SPACE ((b :: ws) ++ [w])).
  rewrite IH by discriminate.
  change (join SPACE (a :: b :: ws)) with (a ++ SPACE ++ join SPACE (b :: ws)).
  now rewrite <- !app_assoc.
Qed.

Lemma rev_join (ws : list str) :
  rev (join SPACE ws) = join SPACE (map (@rev N) (rev ws)).
Proof.
  induction ws as [|w ws IH]; [reflexivity|].
  destruct ws as [|w2 ws]; [reflexivity|].
  change (join SPACE (w :: w2 :: ws)) with (w ++ SPACE ++ join SPACE (w2 :: ws)).
  rewrite !rev_app_distr, IH.
  change (rev (w :: w2 :: ws)) with (rev (w2 :: ws) ++ [w]).
  rewrite map_app. cbn [map].
  rewrite join_snoc; [now rewrite <- app_assoc|].
  change (rev (w2 :: ws)) with (rev ws ++ [w2]). rewrite map_app.
  intro E. apply app_eq_nil in E as [_ E]. discriminate.
Qed.

Lemma is_word_rev (w : str) : is_word w -> is_word (rev w).
Proof.
  intros [Hne Hw]. split.
  - intro E. apply Hne. rewrite <- (rev_involutive w), E. reflexivity.
  - apply Forall_rev. exact Hw.
Qed.

Lemma strip_join (ws : list str) :
  Forall is_word ws -> strip (join SPACE ws) = join SPACE ws.
Proof.
  intro H. unfold strip, rstrip. rewrite (lstrip_join H), rev_join.
  rewrite lstrip_join.
  - rewrite <- rev_join. apply rev_involutive.
  - apply Forall_map. apply Forall_rev.
    revert H. apply Forall_impl. exact is_word_rev.
Qed.

Lemma join_spaces (ws : list str) (c : N) :
  Forall is_word ws -> In c (join SPACE ws) -> isspace c = true -> c = 32%N.
Proof.
  induction 1 as [|w ws [_ Hw] Hws IH]; [intros []|].
  intros Hin Hc. rewrite Forall_forall in Hw.
  destruct ws as [|w2 ws].
  - cbn in Hin. rewrite (Hw c Hin) in Hc. discriminate.
  - change (join SPACE (w :: w2 :: ws))
      with (w ++ 32%N :: join SPACE (w2 :: ws)) in Hin.
    apply in_app_or in Hin as [Hin|[Hin|Hin]].
    + rewrite (Hw c Hin) in Hc. discriminate.
    + now symmetry.
    + now apply IH.
Qed.

Lemma word_then_no_double_space (w t before after : str) :
  Forall (fun c => isspace c = false) w ->
  w ++ 32%N :: t = before ++ 32%N :: 32%N :: after ->
  (exists c rest, t = c :: rest /\ isspace c = true)
  \/ exists before', t = before' ++ 32%N :: 32%N :: after.
Proof.
  intro Hw. revert before. induction Hw as [|c w Hc Hw IH]; intros before E.
  - destruct before as [|b before]; cbn in E.
    + injection E as E. left. exists 32%N, after. now split.
    + injection E as _ E. right. now exists before.
  - destruct before as [|b before]; cbn in E.
    + injection E as -> _. discriminate Hc.
    + injection E as _ E. exact (IH before E).
Qed.

Lemma join_no_double_space (ws : list str) :
  Forall is_word ws -> ~ adjacent 32 32 (join SPACE ws).
Proof.
  induction 1 as [|w ws Hword Hws IH]; intros (before & after & E).
  - destruct before; discriminate E.
  - destruct Hword as [Hne Hw]. destruct ws as [|w2 ws].
    + cbn in E. rewrite Forall_forall in Hw.
      assert (Hs : isspace 32 = false).
      { apply Hw. rewrite E. apply in_or_app. right. now left. }
      discriminate Hs.
    + change (join SPACE (w :: w2 :: ws))
        with (w ++ 32%N :: join SPACE (w2 :: ws)) in E.
      destruct (word_then_no_double_space _ _ _ Hw E)
        as [(c & rest & Ej & Hc)|(before' & Ej)].
      * destruct (join_words_head Hws) as [E0|(c' & rest' & E1 & Hc')].
        -- rewrite E0 in Ej. discriminate.
        -- rewrite E1 in Ej. injection Ej as -> _. congruence.
      * apply IH. now exists before', after.
Qed.

Lemma clean_name_stripped (nfkc : str -> str) (name : option str) :
  strip (clean_name nfkc name) = clean_name nfkc name.
Proof.
  destruct (clean_name_shape nfkc name) as [s ->].
  apply strip_join. apply split_words.
Qed.

(** X1.  Whatever the input and the normalisation table, a cleaned name has
    no white space at either end, no white space other than the plain space,
    and no two spaces in a row. *)
Theorem clean_name_white_space (nfkc : str -> str) (name : option str) :
  let cleaned := clean_name nfkc name in
  strip cleaned = cleaned
  /\ (forall c, In c cleaned -> isspace c = true -> c = 32%N)
  /\ ~ adjacent 32 32 cleaned.
Proof.
  cbv zeta. destruct (clean_name_shape nfkc name) as [s ->].
  pose proof (split_words s) as H.
  split; [now apply strip_join|].
  split; [intro c; now apply join_spaces | now apply join_no_double_space].
Qed.

Lemma endswith_app (x suffix : str) : endswith (x ++ suffix) suffix = true.
Proof.
  unfold endswith. rewrite length_app.
  replace (length x + length suffix - length suffix)%nat with (length x)
    by lia.
  rewrite skipn_app, skipn_all, Nat.sub_diag. cbn [skipn app].
  rewrite str_eqb_refl, andb_true_r. apply Nat.leb_le. lia.
Qed.

(** X2.  [base_name] takes the marker [" MINE"] off the end of any name and
    strips what is left: for a name [x] that is already stripped, as a cleaned
    name is, [x] and [x + " MINE"] have the same base name as soon as [x]
    itself does not end with the marker. *)
Theorem base_name_of_owned (nfkc : str -> str) (x : str) (name : option str) :
  base_name (x ++ MINE_SUFFIX) = strip x
  /\ (let cleaned := clean_name nfkc name in
      endswith cleaned MINE_SUFFIX = false ->
      base_name (cleaned ++ MINE_SUFFIX) = cleaned
      /\ base_name cleaned = cleaned).
Proof.
  assert (H : forall y, base_name (y ++ MINE_SUFFIX) = strip y).
  { intro y. unfold base_name. rewrite endswith_app. unfold drop_last.
    rewrite length_app.
    replace (length y + length MINE_SUFFIX - length MINE_SUFFIX)%nat
      with (length y) by lia.
    rewrite firstn_app, firstn_all, Nat.sub_diag. cbn [firstn].
    now rewrite app_nil_r. }
  split; [apply H|].
  intros cleaned Hreg. split.
  - rewrite H. apply clean_name_stripped.
  - unfold base_name. now rewrite Hreg.
Qed.

Lemma base_name_of_owned_witness :
  base_name (lit "Sticker | Twistzz  MINE") = lit "Sticker | Twistzz"
  /\ base_name (clean_name nfkc_stable (Some (lit " AK-47 ")) ++ MINE_SUFFIX)
     = lit "AK-47".
Proof.
  destruct (base_name_of_owned nfkc_stable (lit "Sticker | Twistzz ")
              (Some (lit " AK-47 "))) as [H1 H2].
  split.
  - exact H1.
  - apply H2. reflexivity.
Defined.

(** ** The re-encoding step and UTF-8 *)

Ltac div_lia := zify; Z.to_euclidean_division_equations; lia.

Lemma in_range_iff (lo hi b : N) :
  in_range lo hi b = true <-> (lo <= b <= hi)%N.
Proof.
  unfold in_range. now rewrite andb_true_iff, !N.leb_le.
Qed.

Lemma in_range_out (lo hi b : N) :
  in_range lo hi b = false <-> (b < lo \/ hi < b)%N.
Proof.
  unfold in_range. rewrite andb_false_iff, !N.leb_gt. reflexivity.
Qed.

Lemma is_cont_iff (b : N) : is_cont b = true <-> (128 <= b <= 191)%N.
Proof. apply in_range_iff. Qed.

Lemma decode_utf8_1 (b : N) (r : list N) :
  (b < 128)%N ->
  decode_utf8 (b :: r) = (s <- decode_utf8 r ;; Ok (b :: s))%result.
Proof.
  intro H. cbn [decode_utf8]. apply N.ltb_lt in H. now rewrite H.
Qed.

Lemma decode_utf8_2 (b0 b1 : N) (r : list N) :
  (194 <= b0 <= 223)%N -> (128 <= b1 <= 191)%N ->
  decode_utf8 (b0 :: b1 :: r)
  = (s <- decode_utf8 r ;; Ok (((b0 - 192) * 64 + (b1 - 128))%N :: s))%result.
Proof.
  intros H0 H1. cbn [decode_utf8].
  replace (b0 <? 128)%N with false by (symmetry; apply N.ltb_ge; lia).
  replace (in_range 194 223 b0) with true
    by (symmetry; apply in_range_iff; lia).
  replace (is_cont b1) with true by (symmetry; apply is_cont_iff; lia).
  reflexivity.
Qed.

Lemma decode_utf8_3 (b0 b1 b2 : N) (r : list N) :
  (224 <= b0 <= 239)%N -> (128 <= b1 <= 191)%N -> (128 <= b2 <= 191)%N ->
  (b0 = 224 -> 160 <= b1)%N -> (b0 = 237 -> b1 <= 159)%N ->
  decode_utf8 (b0 :: b1 :: b2 :: r)
  = (s <- decode_utf8 r ;;
     Ok (((b0 - 224) * 4096 + (b1 - 128) * 64 + (b2 - 128))%N :: s))%result.
Proof.
  intros H0 H1 H2 Hlo Hhi. cbn [decode_utf8].
  replace (b0 <? 128)%N with false by (symmetry; apply N.ltb_ge; lia).
  replace (in_range 194 223 b0) with false
    by (symmetry; apply in_range_out; lia).
  replace (in_range 224 239 b0) with true
    by (symmetry; apply in_range_iff; lia).
  replace (in_range (if (b0 =? 224)%N then 160%N else 128%N)
                    (if (b0 =? 237)%N then 159%N else 191%N) b1)
    with true.
  - replace (is_cont b2) with true by (symmetry; apply is_cont_iff; lia). reflexivity.
  - symmetry. apply in_range_iff.
    destruct (N.eqb_spec b0 224), (N.eqb_spec b0 237); lia.
Qed.

Lemma decode_utf8_4 (b0 b1 b2 b3 : N) (r : list N) :
  (240 <= b0 <= 244)%N -> (128 <= b1 <= 191)%N -> (128 <= b2 <= 191)%N ->
  (128 <= b3 <= 191)%N ->
  (b0 = 240 -> 144 <= b1)%N -> (b0 = 244 -> b1 <= 143)%N ->
  decode_utf8 (b0 :: b1 :: b2 :: b3 :: r)
  = (s <- decode_utf8 r ;;
     Ok (((b0 - 240) * 262144 + (b1 - 128) * 4096 + (b2 - 128) * 64
          + (b3 - 128))%N :: s))%result.
Proof.
  intros H0 H1 H2 H3 Hlo Hhi. cbn [decode_utf8].
  replace (b0 <? 128)%N with false by (symmetry; apply N.ltb_ge; lia).
  replace (in_range 194 223 b0) with false
    by (symmetry; apply in_range_out; lia).
  replace (in_range 224 239 b0) with false
    by (symmetry; apply in_range_out; lia).
  replace (in_range 240 244 b0) with true
    by (symmetry; apply in_range_iff; lia).
  replace (in_range (if (b0 =? 240)%N then 144%N else 128%N)
                    (if (b0 =? 244)%N then 143%N else 191%N) b1)
    with true.
  - replace (is_cont b2) with true by (symmetry; apply is_cont_iff; lia).
    replace (is_cont b3) with true by (symmetry; apply is_cont_iff; lia). reflexivity.
  - symmetry. apply in_range_iff.
    destruct (N.eqb_spec b0 240), (N.eqb_spec b0 244); lia.
Qed.

Lemma decode_encode_char (c : N) (r : list N) :
  is_scalar c ->
  decode_utf8 (encode_utf8_char c ++ r)
  = (s <- decode_utf8 r ;; Ok (c :: s))%result.
Proof.
  intros [Hmax Hsur]. unfold encode_utf8_char.
  destruct (N.ltb_spec c 128) as [H1|H1].
  { now apply decode_utf8_1. }
  destruct (N.ltb_spec c 2048) as [H2|H2].
  { cbn [app]. rewrite decode_utf8_2 by div_lia.
    replace ((192 + c / 64 - 192) * 64 + (128 + c mod 64 - 128))%N with c
      by div_lia.
    reflexivity. }
  destruct (N.ltb_spec c 65536) as [H3|H3].
  { cbn [app]. rewrite decode_utf8_3 by div_lia.
    replace ((224 + c / 4096 - 224) * 4096
             + (128 + (c / 64) mod 64 - 128) * 64
             + (128 + c mod 64 - 128))%N with c by div_lia.
    reflexivity. }
  cbn [app]. rewrite decode_utf8_4 by div_lia.
  replace ((240 + c / 262144 - 240) * 262144
           + (128 + (c / 4096) mod 64 - 128) * 4096
           + (128 + (c / 64) mod 64 - 128) * 64
           + (128 + c mod 64 - 128))%N with c by div_lia.
  reflexivity.
Qed.

(** Decoding undoes encoding. *)
Lemma decode_encode_utf8 (s : str) :
  Forall is_scalar s -> decode_utf8 (encode_utf8 s) = Ok s.
Proof.
  induction 1 as [|c s Hc Hs IH]; [reflexivity|].
  cbn [encode_utf8 flat_map]. rewrite decode_encode_char by exact Hc.
  unfold encode_utf8 in IH. now rewrite IH.
Qed.

Lemma encode_utf8_char_bytes (c : N) :
  is_scalar c -> Forall (fun b => (b <= 255)%N) (encode_utf8_char c).
Proof.
  intros [Hmax _]. unfold encode_utf8_char.
  destruct (N.ltb_spec c 128); [repeat constructor; lia|].
  destruct (N.ltb_spec c 2048); [repeat constructor; div_lia|].
  destruct (N.ltb_spec c 65536); repeat constructor; div_lia.
Qed.

Lemma encode_latin1_bytes (bs : list N) :
  Forall (fun b => (b <= 255)%N) bs -> encode_latin1 bs = Ok bs.
Proof.
  induction 1 as [|b bs Hb Hbs IH]; [reflexivity|].
  cbn. apply N.leb_le in Hb. now rewrite Hb, IH.
Qed.

Lemma encode_utf8_char_artifact (c : N) :
  is_scalar c ->
  contains A_CIRC (encode_utf8_char c) = in_range 8192 12287 c.
Proof.
  intros [Hmax _]. unfold contains, A_CIRC.
  apply eq_true_iff_eq. rewrite in_range_iff, existsb_exists.
  assert (Hin : forall b, In b (encode_utf8_char c) -> b = 226%N ->
                          (8192 <= c <= 12287)%N).
  { unfold encode_utf8_char. intros b Hb ->.
    destruct (N.ltb_spec c 128); [|destruct (N.ltb_spec c 2048);
                                    [|destruct (N.ltb_spec c 65536)]];
      cbn [In] in Hb;
      repeat (destruct Hb as [Hb|Hb]; [div_lia|]); destruct Hb. }
  split.
  - intros (b & Hb & E). apply N.eqb_eq in E. symmetry in E.
    exact (Hin b Hb E).
  - intro Hrange. exists 226%N. split; [|reflexivity].
    unfold encode_utf8_char.
    destruct (N.ltb_spec c 128); [lia|].
    destruct (N.ltb_spec c 2048); [lia|].
    destruct (N.ltb_spec c 65536); [|lia].
    left. div_lia.
Qed.

Lemma contains_encode_utf8 (s : str) :
  Forall is_scalar s ->
  contains A_CIRC (encode_utf8 s) = existsb (in_range 8192 12287) s.
Proof.
  induction 1 as [|c s Hc Hs IH]; [reflexivity|].
  cbn [encode_utf8 flat_map existsb]. fold (encode_utf8 s).
  rewrite <- (encode_utf8_char_artifact Hc), <- IH.
  unfold contains. apply existsb_app.
Qed.

Lemma encode_utf8_bytes (s : str) :
  Forall is_scalar s -> Forall (fun b => (b <= 255)%N) (encode_utf8 s).
Proof.
  induction 1 as [|c s Hc Hs IH]; [constructor|].
  cbn [encode_utf8 flat_map]. apply Forall_app.
  split; [now apply encode_utf8_char_bytes | exact IH].
Qed.

(** X3.  The re-encoding step restores a text whose UTF-8 bytes were read as
    Latin-1 exactly when the text holds a character from U+2000 to U+2FFF
    (the trademark sign is one): the misread text then shows the artifact
    U+00E2.  A misread text without such a character is left as it is. *)
Theorem fix_encoding_repairs (s : str) :
  Forall is_scalar s ->
  fix_encoding (encode_utf8 s)
  = if existsb (in_range 8192 12287) s then s else encode_utf8 s.
Proof.
  intro Hs. unfold fix_encoding. rewrite (contains_encode_utf8 Hs).
  destruct (existsb _ s); [|reflexivity].
  rewrite (encode_latin1_bytes (encode_utf8_bytes Hs)). cbn [rbind].
  now rewrite (decode_encode_utf8 Hs).
Qed.

Lemma fix_encoding_repairs_witness :
  fix_encoding (lit "StatTrak" ++ [226; 132; 162]%N ++ lit " M249")
  = lit "StatTrak" ++ [8482%N] ++ lit " M249"
  /\ fix_encoding (lit "Caf" ++ [195; 169]%N) = lit "Caf" ++ [195; 169]%N.
Proof.
  assert (Hscalar : forall s, forallb (fun c => (c <? 55296)%N) s = true ->
                              Forall is_scalar s).
  { intros s H. apply Forall_forall. intros c Hc.
    rewrite forallb_forall in H. specialize (H c Hc).
    apply N.ltb_lt in H. split; lia. }
  split.
  - exact (@fix_encoding_repairs
             (lit "StatTrak" ++ [8482%N] ++ lit " M249")
             (Hscalar (lit "StatTrak" ++ [8482%N] ++ lit " M249") eq_refl)).
  - exact (@fix_encoding_repairs (lit "Caf" ++ [233%N])
             (Hscalar (lit "Caf" ++ [233%N]) eq_refl)).
Defined.

Lemma encode_char_1 (b : N) : (b < 128)%N -> encode_utf8_char b = [b].
Proof.
  intro H. unfold encode_utf8_char. apply N.ltb_lt in H. now rewrite H.
Qed.

Lemma encode_char_2 (b0 b1 : N) :
  (194 <= b0 <= 223)%N -> (128 <= b1 <= 191)%N ->
  encode_utf8_char ((b0 - 192) * 64 + (b1 - 128)) = [b0; b1].
Proof.
  intros H0 H1. unfold encode_utf8_char.
  destruct (N.ltb_spec ((b0 - 192) * 64 + (b1 - 128)) 128); [lia|].
  destruct (N.ltb_spec ((b0 - 192) * 64 + (b1 - 128)) 2048); [|lia].
  f_equal; [|f_equal]; div_lia.
Qed.

Lemma encode_char_3 (b0 b1 b2 : N) :
  (224 <= b0 <= 239)%N -> (128 <= b1 <= 191)%N -> (128 <= b2 <= 191)%N ->
  (b0 = 224 -> 160 <= b1)%N ->
  encode_utf8_char ((b0 - 224) * 4096 + (b1 - 128) * 64 + (b2 - 128))
  = [b0; b1; b2].
Proof.
  intros H0 H1 H2 Hlo. unfold encode_utf8_char.
  set (c := ((b0 - 224) * 4096 + (b1 - 128) * 64 + (b2 - 128))%N).
  assert (Hc : (2048 <= c < 65536)%N).
  { subst c. destruct (N.eq_dec b0 224); lia. }
  destruct (N.ltb_spec c 128); [lia|].
  destruct (N.ltb_spec c 2048); [lia|].
  destruct (N.ltb_spec c 65536); [|lia].
  subst c. f_equal; [|f_equal; [|f_equal]]; div_lia.
Qed.

Lemma encode_char_4 (b0 b1 b2 b3 : N) :
  (240 <= b0 <= 244)%N -> (128 <= b1 <= 191)%N -> (128 <= b2 <= 191)%N ->
  (128 <= b3 <= 191)%N -> (b0 = 240 -> 144 <= b1)%N ->
  encode_utf8_char ((b0 - 240) * 262144 + (b1 - 128) * 4096
                    + (b2 - 128) * 64 + (b3 - 128))
  = [b0; b1; b2; b3].
Proof.
  intros H0 H1 H2 H3 Hlo. unfold encode_utf8_char.
  set (c := ((b0 - 240) * 262144 + (b1 - 128) * 4096
             + (b2 - 128) * 64 + (b3 - 128))%N).
  assert (Hc : (65536 <= c)%N).
  { subst c. destruct (N.eq_dec b0 240); lia. }
  destruct (N.ltb_spec c 128); [lia|].
  destruct (N.ltb_spec c 2048); [lia|].
  destruct (N.ltb_spec c 65536); [lia|].
  subst c. f_equal; [|f_equal; [|f_equal; [|f_equal]]]; div_lia.
Qed.

Ltac decode_tail IH r t :=
  let s := fresh "s" in
  let E := fresh "E" in
  let Hs := fresh "Hs" in
  let Hsc := fresh "Hsc" in
  match goal with H : _ = Ok t |- _ => cbn [andb] in H end;
  destruct (decode_utf8 r) as [s|] eqn:E; [|discriminate];
  match goal with
  | H : rbind _ _ = Ok t |- _ => cbn [rbind] in H; injection H as <-
  end;
  destruct (IH r s) as [Hs Hsc]; [cbn [length] in *; lia | exact E |].

(** Encoding undoes decoding: the decoder accepts shortest forms of scalar
    values only. *)
Lemma encode_decode_utf8 (bs : list N) (t : str) :
  decode_utf8 bs = Ok t -> encode_utf8 t = bs /\ Forall is_scalar t.
Proof.
  remember (length bs) as n eqn:Hn.
  assert (Hlen : (length bs <= n)%nat) by lia. clear Hn.
  revert bs t Hlen. induction n as [|n IH]; intros bs t Hlen H.
  { destruct bs; [|cbn in Hlen; lia]. injection H as <-. now split. }
  destruct bs as [|b0 r0]; [injection H as <-; now split|].
  cbn [decode_utf8] in H.
  destruct (N.ltb_spec b0 128) as [H1|H1].
  { decode_tail IH r0 t. cbn [encode_utf8 flat_map].
    rewrite encode_char_1 by exact H1. fold (encode_utf8 s). rewrite Hs.
    split; [reflexivity|]. constructor; [|exact Hsc]. split; lia. }
  destruct (in_range 194 223 b0) eqn:R2.
  { apply in_range_iff in R2.
    destruct r0 as [|b1 r1]; [discriminate|].
    destruct (is_cont b1) eqn:C1; [|discriminate]. apply is_cont_iff in C1.
    decode_tail IH r1 t. cbn [encode_utf8 flat_map].
    rewrite encode_char_2 by assumption. fold (encode_utf8 s). rewrite Hs.
    split; [reflexivity|]. constructor; [|exact Hsc]. split; lia. }
  destruct (in_range 224 239 b0) eqn:R3.
  { apply in_range_iff in R3.
    destruct r0 as [|b1 [|b2 r2]]; try discriminate.
    destruct (in_range _ _ b1) eqn:C1; [|discriminate].
    destruct (is_cont b2) eqn:C2; [|discriminate].
    apply in_range_iff in C1. apply is_cont_iff in C2.
    assert (Hb1 : (128 <= b1 <= 191)%N /\ (b0 = 224 -> 160 <= b1)%N
                  /\ (b0 = 237 -> b1 <= 159)%N).
    { destruct (N.eqb_spec b0 224), (N.eqb_spec b0 237); lia. }
    destruct Hb1 as (Hb1 & Hlo & Hhi).
    decode_tail IH r2 t. cbn [encode_utf8 flat_map].
    rewrite encode_char_3 by assumption. fold (encode_utf8 s). rewrite Hs.
    split; [reflexivity|]. constructor; [|exact Hsc].
    split; [lia|]. destruct (N.eq_dec b0 237); lia. }
  destruct (in_range 240 244 b0) eqn:R4; [|discriminate].
  apply in_range_iff in R4.
  destruct r0 as [|b1 [|b2 [|b3 r3]]]; try discriminate.
  destruct (in_range _ _ b1) eqn:C1; [|discriminate].
  destruct (is_cont b2) eqn:C2; [|discriminate].
  destruct (is_cont b3) eqn:C3; [|discriminate].
  apply in_range_iff in C1. apply is_cont_iff in C2. apply is_cont_iff in C3.
  assert (Hb1 : (128 <= b1 <= 191)%N /\ (b0 = 240 -> 144 <= b1)%N
                /\ (b0 = 244 -> b1 <= 143)%N).
  { destruct (N.eqb_spec b0 240), (N.eqb_spec b0 244); lia. }
  destruct Hb1 as (Hb1 & Hlo & Hhi).
  decode_tail IH r3 t. cbn [encode_utf8 flat_map].
  rewrite encode_char_4 by assumption. fold (encode_utf8 s). rewrite Hs.
  split; [reflexivity|]. constructor; [|exact Hsc].
  split; [|lia]. destruct (N.eq_dec b0 244); lia.
Qed.

Lemma encode_latin1_ok (s : str) (bs : list N) :
  encode_latin1 s = Ok bs -> bs = s.
Proof.
  revert bs. induction s as [|c s IH]; intros bs H; cbn in H.
  - now injection H.
  - destruct (c <=? 255)%N; [|discriminate].
    destruct (encode_latin1 s) as [bs'|]; [|discriminate].
    injection H as <-. f_equal. now apply IH.
Qed.

(** X4.  The re-encoding step never invents a text: either it returns the
    name as it got it, or the name showed the artifact and is, character for
    character, the UTF-8 form of the returned text, which is made of Unicode
    scalar values. *)
Theorem fix_encoding_lossless (name : str) :
  fix_encoding name = name
  \/ (contains A_CIRC name = true
      /\ encode_utf8 (fix_encoding name) = name
      /\ Forall is_scalar (fix_encoding name)).
Proof.
  unfold fix_encoding. destruct (contains A_CIRC name) eqn:Ha; [|now left].
  destruct (encode_latin1 name) as [bs|] eqn:El; [|now left].
  apply encode_latin1_ok in El. subst bs. cbn [rbind].
  destruct (decode_utf8 name) as [t|] eqn:Ed; [|now left].
  right. cbn [try_except]. split; [reflexivity|].
  now apply encode_decode_utf8.
Qed.

(** ** Dates *)

Lemma try_formats_none (strptime : str -> str -> result datetime)
    (s : str) (fmts : list str) :
  try_formats strptime (Some s) fmts = None
  <-> Forall (fun fmt => raises (strptime s fmt)) fmts.
Proof.
  induction fmts as [|fmt fmts IH]; cbn.
  - split; [constructor | reflexivity].
  - destruct (strptime s fmt) as [d|e] eqn:E.
    + split; [discriminate|]. intro H. inversion H as [|? ? [e He] _]; subst.
      congruence.
    + rewrite IH. split.
      * intro H. constructor; [now exists e | exact H].
      * intro H. now inversion H.
Qed.

Lemma try_formats_some (strptime : str -> str -> result datetime)
    (s : str) (fmts : list str) (d : datetime) :
  try_formats strptime (Some s) fmts = Some d
  <-> exists before fmt after,
        fmts = before ++ fmt :: after
        /\ Forall (fun f => raises (strptime s f)) before
        /\ strptime s fmt = Ok d.
Proof.
  induction fmts as [|fmt fmts IH]; cbn.
  - split; [discriminate|]. intros (b & f & a & E & _). destruct b; discriminate.
  - destruct (strptime s fmt) as [d'|e] eqn:E.
    + split.
      * intros [= ->]. exists [], fmt, fmts. repeat split; [constructor | exact E].
      * intros ([|f0 b] & f & a & Hl & Hb & Hf); cbn in Hl.
        -- injection Hl as <- _. congruence.
        -- injection Hl as <- _. inversion Hb as [|? ? [e' He'] _]; subst.
           congruence.
    + rewrite IH. split.
      * intros (b & f & a & -> & Hb & Hf). exists (fmt :: b), f, a.
        repeat split; [constructor; [now exists e | exact Hb] | exact Hf].
      * intros ([|f0 b] & f & a & Hl & Hb & Hf); cbn in Hl.
        -- injection Hl as <- _. congruence.
        -- injection Hl as _ ->. exists b, f, a.
           repeat split; [now inversion Hb | exact Hf].
Qed.

(** X5.  [parse_date] answers [None] for a date that is missing and for a text
    that none of the four formats reads; otherwise it answers what the first
    format, in the order of the list, that reads the text gives, whatever the
    later formats would give. *)
Theorem parse_date_first_format (strptime : str -> str -> result datetime)
    (s : str) (d : datetime) :
  parse_date strptime None = None
  /\ (parse_date strptime (Some s) = None
      <-> Forall (fun fmt => raises (strptime s fmt)) date_formats)
  /\ (parse_date strptime (Some s) = Some d
      <-> exists before fmt after,
            date_formats = before ++ fmt :: after
            /\ Forall (fun f => raises (strptime s f)) before
            /\ strptime s fmt = Ok d).
Proof.
  split; [reflexivity|].
  split; [apply try_formats_none | apply try_formats_some].
Qed.

(** ** The transformer: sales, lists, margins, statistics *)

Section TransformerMore.

Variable nfkc : str -> str.
Variable py_float : str -> result Q.
Variable strptime : str -> str -> result datetime.
Variable now : datetime.

Local Abbreviation transform := (transform_item nfkc py_float strptime now).
Local Abbreviation parse := (parse_prices py_float).
Local Abbreviation step :=
  (sale_step py_float strptime (now - THIRTY_DAYS)%Z).
Local Abbreviation sales_loop raw_item :=
  (fold_left step (sales_history raw_item) (0%Z, [])).

Ltac run_transform :=
  unfold transform_item, try_log, transform_body;
  match goal with
  | |- context [fold_left ?f ?l ?a] => destruct (fold_left f l a) as [n rs]
  end;
  unfold mbind, lift, assign, mret.

Ltac transform_cases :=
  repeat match goal with
    | |- context [match ?c with Ok _ => _ | Raise _ => _ end] => destruct c
    | |- context [match ?l with [] => _ | _ :: _ => _ end] =>
        destruct l
    | |- context [if ?b then _ else _] => destruct b
    end.

Ltac result_cases :=
  repeat match goal with
    | |- context [match ?c with Ok _ => _ | Raise _ => _ end] => destruct c
    | |- context [match map si_price ?l with [] => _ | _ :: _ => _ end] =>
        destruct (map si_price l)
    | |- context [if (?a <? ?b)%nat then _ else _] => destruct (a <? b)%nat
    end.

(** [transform_item] written out: the keys are assigned in order until the
    first exception; the two statistics never raise. *)
Lemma transform_item_unfold (raw_item : RawItem) :
  transform raw_item
  = let base :=
      set_recent_sales_prices (snd (sales_loop raw_item))
        (set_sales (fst (sales_loop raw_item))
           (new_record (clean_name nfkc (raw_name raw_item))
                       (match raw_wear raw_item with
                        | Some w => w
                        | None => Some []
                        end))) in
    let prices := map si_price (snd (sales_loop raw_item)) in
    match parse (offer_prices raw_item) with
    | Raise _ => base
    | Ok offers =>
        let lowest := firstn 3 (sorted offers) in
        let with_offers :=
          set_offer_prices_quantity (Z.of_nat (length lowest))
            (set_offer_prices_list lowest base) in
        match parse (target_prices raw_item) with
        | Raise _ => with_offers
        | Ok targets =>
            let highest := firstn 3 (sorted_reverse targets) in
            let with_targets :=
              set_target_price_list_quantity (Z.of_nat (length highest))
                (set_target_price_list highest with_offers) in
            match py_div (nth_or_default lowest 0)
                         (nth_or_default highest 0) with
            | Raise _ => with_targets
            | Ok m1 =>
                match py_div (nth_or_default lowest 1)
                             (nth_or_default highest 1) with
                | Raise _ => set_profit_margin_pair1 m1 with_targets
                | Ok m2 =>
                    set_price_variance
                      (try_except (variance prices) (fun _ => 0))
                      (set_average_recent_sale_price
                         (try_except (mean prices) (fun _ => 0))
                         (set_profit_margin_pair2 m2
                            (set_profit_margin_pair1 m1 with_targets)))
                end
            end
        end
    end.
Proof.
  unfold transform_item, try_log, transform_body.
  destruct (sales_loop raw_item) as [n rs]. cbn [fst snd].
  unfold mbind, lift, assign, mret. cbv zeta.
  destruct (parse (offer_prices raw_item)) as [offers|]; [|reflexivity].
  destruct (parse (target_prices raw_item)) as [targets|]; [|reflexivity].
  destruct (py_div _ _) as [m1|]; [|reflexivity].
  destruct (py_div _ _) as [m2|]; [|reflexivity].
  destruct (map si_price rs) as [|p [|p2 l]]; reflexivity.
Qed.






(** X7.  Each quantity is set together with its list and is the length of the
    list, which is at most 3. *)
Theorem transform_item_quantities (raw_item : RawItem) :
  match offer_prices_list (transform raw_item) with
  | Some l => offer_prices_quantity (transform raw_item)
              = Some (Z.of_nat (length l)) /\ (length l <= 3)%nat
  | None => offer_prices_quantity (transform raw_item) = None
  end
  /\ match target_price_list (transform raw_item) with
     | Some l => target_price_list_quantity (transform raw_item)
                 = Some (Z.of_nat (length l)) /\ (length l <= 3)%nat
     | None => target_price_list_quantity (transform raw_item) = None
     end.
Proof.
  rewrite transform_item_unfold. cbv zeta.
  destruct (parse (offer_prices raw_item)) as [offers|];
    [|split; reflexivity].
  destruct (parse (target_prices raw_item)) as [targets|];
    [|split; [split; [reflexivity | apply firstn_le_length] | reflexivity]].
  destruct (py_div _ _) as [m1|]; [destruct (py_div _ _) as [m2|]|];
    (split; (split; [reflexivity | apply firstn_le_length])).
Qed.

Lemma py_div_ok (x y : Q) :
  ~ y == 0 -> py_div x y = Ok (Qred (x / y)).
Proof.
  intro H. unfold py_div. destruct (Qeq_bool y 0) eqn:E; [|reflexivity].
  apply Qeq_bool_iff in E. contradiction.
Qed.




Lemma sorted_head_minimum (l : list Q) (lo : Q) :
  is_minimum lo l ->
  exists lo' rest, sorted l = lo' :: rest /\ lo' == lo.
Proof.
  intros Hmin. destruct (sorted_ascending l) as [Hs Hp].
  destruct (sorted l) as [|a rest] eqn:E.
  - apply Permutation_nil in Hp. subst l. destruct Hmin as [[] _].
  - exists a, rest. split; [reflexivity|].
    apply (@minimum_unique l); [|exact Hmin].
    apply Sorted_StronglySorted in Hs; [|exact Qle_trans].
    inversion Hs as [|? ? _ Hall]; subst. split.
    + apply (Permutation_in _ Hp). now left.
    + apply (Permutation_Forall Hp). constructor; [apply Qle_refl | exact Hall].
Qed.

Lemma sorted_reverse_head_maximum (l : list Q) (hi : Q) :
  is_maximum hi l ->
  exists hi' rest, sorted_reverse l = hi' :: rest /\ hi' == hi.
Proof.
  intros Hmax. destruct (sorted_reverse_descending l) as [Hs Hp].
  destruct (sorted_reverse l) as [|a rest] eqn:E.
  - apply Permutation_nil in Hp. subst l. destruct Hmax as [[] _].
  - exists a, rest. split; [reflexivity|].
    apply (@maximum_unique l); [|exact Hmax].
    apply Sorted_StronglySorted in Hs;
      [|intros x y z Hxy Hyz; exact (Qle_trans _ _ _ Hyz Hxy)].
    inversion Hs as [|? ? _ Hall]; subst. split.
    + apply (Permutation_in _ Hp). now left.
    + apply (Permutation_Forall Hp). constructor; [apply Qle_refl | exact Hall].
Qed.

(** X9.  When every priced entry reads as a number, the first margin is the
    lowest offer divided by the highest target, provided that target is not
    zero. *)
Theorem transform_item_margin_extremes (raw_item : RawItem)
    (offers targets : list Q) (lo hi : Q) :
  parse (offer_prices raw_item) = Ok offers ->
  parse (target_prices raw_item) = Ok targets ->
  is_minimum lo offers -> is_maximum hi targets -> ~ hi == 0 ->
  exists m, profit_margin_pair1 (transform raw_item) = Some m
            /\ m == lo / hi.
Proof.
  intros Ho Ht Hlo Hhi Hnz.
  rewrite (@transform_item_margin1 nfkc py_float strptime now raw_item
             offers targets Ho Ht).
  destruct (sorted_head_minimum Hlo) as (lo' & ro & -> & El).
  destruct (sorted_reverse_head_maximum Hhi) as (hi' & rt & -> & Eh).
  change (nth_or_default (firstn 3 (lo' :: ro)) 0) with lo'.
  change (nth_or_default (firstn 3 (hi' :: rt)) 0) with hi'.
  rewrite py_div_ok by (rewrite Eh; exact Hnz).
  eexists. split; [reflexivity|].
  rewrite Qred_correct, El, Eh. reflexivity.
Qed.











Lemma parse_no_priced_entry (entries : list RawOrderEntry) :
  no_priced_entry entries -> parse entries = Ok [].
Proof.
  induction 1 as [|e es He Hes IH]; cbn; [reflexivity|].
  now rewrite He.
Qed.

(** X11.  An item without a priced offer and without a priced target gets
    empty lists and both margins equal to 1, and is no candidate, however many
    recent sales it has. *)
Theorem transform_item_no_orders (raw_item : RawItem) :
  no_priced_entry (offer_prices raw_item) ->
  no_priced_entry (target_prices raw_item) ->
  offer_prices_list (transform raw_item) = Some []
  /\ target_price_list (transform raw_item) = Some []
  /\ profit_margin_pair1 (transform raw_item) = Some 1
  /\ profit_margin_pair2 (transform raw_item) = Some 1
  /\ is_candidate (transform raw_item) = Ok false.
Proof.
  intros Ho Ht. rewrite transform_item_unfold. cbv zeta.
  rewrite (parse_no_priced_entry Ho), (parse_no_priced_entry Ht).
  change (py_div (nth_or_default (firstn 3 (sorted [])) 0)
                 (nth_or_default (firstn 3 (sorted_reverse [])) 0))
    with (Ok 1 : result Q).
  change (py_div (nth_or_default (firstn 3 (sorted [])) 1)
                 (nth_or_default (firstn 3 (sorted_reverse [])) 1))
    with (Ok 1 : result Q).
  cbv iota. repeat (split; [reflexivity|]).
  unfold is_candidate, is_good_candidate, passes_profit_margin.
  cbn [sales offer_prices_list target_price_list profit_margin_pair1
       profit_margin_pair2 set_price_variance set_average_recent_sale_price
       set_profit_margin_pair1 set_profit_margin_pair2
       set_target_price_list_quantity set_target_price_list
       set_offer_prices_quantity set_offer_prices_list
       set_recent_sales_prices set_sales firstn sorted sort_by fold_right].
  destruct (_ <? _)%Z; [reflexivity|]. cbn [truthy_list negb orb rbind].
  destruct (_ <=? _)%Z; reflexivity.
Qed.


(** X13.  A record whose transformation was ended by an offer or a target
    price that does not read as a number is no candidate, however many
    recent sales it has. *)
Theorem transform_item_unreadable_price (raw_item : RawItem) :
  raises (parse (offer_prices raw_item))
  \/ raises (parse (target_prices raw_item)) ->
  is_good_candidate (transform raw_item) = Ok false
  /\ passes_profit_margin (transform raw_item) = Ok false
  /\ is_candidate (transform raw_item) = Ok false.
Proof.
  intro H. rewrite transform_item_unfold. cbv zeta.
  assert (Hcase :
            (exists e, parse (offer_prices raw_item) = Raise e)
            \/ (exists offers e,
                  parse (offer_prices raw_item) = Ok offers
                  /\ parse (target_prices raw_item) = Raise e)).
  { destruct (parse (offer_prices raw_item)) as [offers|e] eqn:Eo.
    - right. destruct H as [[e He]|[e He]]; [discriminate|].
      now exists offers, e.
    - left. now exists e. }
  destruct Hcase as [[e ->]|(offers & e & -> & ->)];
    unfold is_candidate, is_good_candidate, passes_profit_margin;
    cbn [sales offer_prices_list target_price_list profit_margin_pair1
         profit_margin_pair2 set_offer_prices_quantity set_offer_prices_list
         set_recent_sales_prices set_sales new_record get_default];
    destruct (_ <? _)%Z; cbn [truthy_list negb orb rbind margin_reaches
                              is_not_none];
    rewrite ?orb_true_r; now repeat split.
Qed.

End TransformerMore.

Lemma transform_item_margin_extremes_witness :
  exists m,
    profit_margin_pair1
      (transform_item0 now0
         (raw [] [order "$3.00"; order "$1.50"] [order "$1.00"; order "$2.00"]))
    = Some m
    /\ m == (3 # 2) / 2.
Proof.
  apply (@transform_item_margin_extremes nfkc_stable float_decimal
           strptime_iso now0
           (raw [] [order "$3.00"; order "$1.50"]
                [order "$1.00"; order "$2.00"])
           [3; 3 # 2] [1; 2] (3 # 2) 2).
  - vm_compute. reflexivity.
  - vm_compute. reflexivity.
  - split; [right; now left | repeat constructor; discriminate].
  - split; [right; now left | repeat constructor; discriminate].
  - discriminate.
Defined.


Lemma transform_item_no_orders_witness :
  is_candidate
    (transform_item0 now0
       (raw (repeat (sale "$1.00" "2025-02-20") 20) [] []))
  = Ok false.
Proof.
  apply (@transform_item_no_orders nfkc_stable float_decimal strptime_iso
           now0 (raw (repeat (sale "$1.00" "2025-02-20") 20) [] []));
    constructor.
Defined.


Lemma transform_item_unreadable_price_witness :
  is_candidate
    (transform_item0 now0
       (raw (repeat (sale "$1.00" "2025-02-20") 20)
            [order "$3.00"] [order "$1,250.00"]))
  = Ok false.
Proof.
  apply (@transform_item_unreadable_price nfkc_stable float_decimal
           strptime_iso now0
           (raw (repeat (sale "$1.00" "2025-02-20") 20)
                [order "$3.00"] [order "$1,250.00"])).
  right. exists ValueError. vm_compute. reflexivity.
Defined.




Lemma Forall2_Qeq_firstn (n : nat) (a b : list Q) :
  Forall2 Qeq a b -> Forall2 Qeq (firstn n a) (firstn n b).
Proof.
  revert a b. induction n as [|n IH]; intros a b Hab; cbn; [constructor|].
  destruct Hab; constructor; auto.
Qed.




(** ** The evaluator, further *)











(** ** The resolver, further *)

Lemma filter_disjoint_permutation {A : Type} (p q : A -> bool) (l : list A) :
  (forall x, In x l -> p x = true -> q x = false) ->
  Permutation (filter p l ++ filter q l) (filter (fun x => p x || q x) l).
Proof.
  induction l as [|x l IH]; intro H; [reflexivity|].
  cbn. assert (Hx := H x (or_introl eq_refl)).
  assert (IH' := IH (fun y Hy => H y (or_intror Hy))).
  destruct (p x) eqn:Ep; cbn.
  - rewrite (Hx eq_refl). cbn. now constructor.
  - destruct (q x); cbn; [|exact IH'].
    rewrite <- IH'. symmetry. apply Permutation_middle.
Qed.

Lemma filter_partition_permutation {A : Type} (p : A -> bool) (l : list A) :
  Permutation (filter (fun x => negb (p x)) l ++ filter p l) l.
Proof.
  rewrite filter_disjoint_permutation.
  - rewrite forallb_filter_id; [reflexivity|].
    apply forallb_forall. intros x _. now destruct (p x).
  - intros x _ Hx. now destruct (p x).
Qed.

Section ResolverMore.

Variable nfkc : str -> str.
Variable items : list AnalyticRecord.

Local Abbreviation keys' := (keys nfkc items).
Local Abbreviation group' := (group_of nfkc items).
Local Abbreviation good' := (flat_map (good_of nfkc items) (keys nfkc items)).
Local Abbreviation bad' := (flat_map (bad_of nfkc items) (keys nfkc items)).

Lemma groups_permutation_of (ks : list str) :
  NoDup ks ->
  Permutation (flat_map group' ks)
    (filter (fun r => existsb (fun k => in_group nfkc k r) ks) items).
Proof.
  induction 1 as [|k ks Hk Hks IH]; cbn.
  - induction items as [|x l IHl]; [reflexivity | exact IHl].
  - rewrite IH. unfold group_of.
    apply filter_disjoint_permutation.
    intros r _ Hr. apply in_group_iff in Hr. subst k.
    destruct (existsb _ ks) eqn:E; [|reflexivity].
    apply existsb_exists in E as (k' & Hk' & E).
    apply in_group_iff in E. subst k'. contradiction.
Qed.

(** The groups, taken in the order of the keys, hold the records of the
    batch, each once. *)
Lemma groups_permutation : Permutation (flat_map group' keys') items.
Proof.
  destruct (keys_spec nfkc items) as [Hnd Hin].
  rewrite (groups_permutation_of Hnd).
  rewrite forallb_filter_id; [reflexivity|].
  apply forallb_forall. intros r Hr.
  apply existsb_exists. exists (group_key nfkc r). split.
  - apply Hin. now exists r.
  - now apply in_group_iff.
Qed.

Lemma outputs_by_group (ks : list str) :
  (forall k, In k ks ->
             Permutation (good_of nfkc items k ++ bad_of nfkc items k)
                         (map project (group' k))) ->
  Permutation (flat_map (good_of nfkc items) ks
               ++ flat_map (bad_of nfkc items) ks)
              (map project (flat_map group' ks)).
Proof.
  induction ks as [|k ks IH]; intro H; [reflexivity|].
  cbn. rewrite map_app.
  rewrite <- (H k (or_introl eq_refl)).
  rewrite <- (IH (fun k' Hk' => H k' (or_intror Hk'))).
  rewrite <- !app_assoc. apply Permutation_app_head.
  rewrite !app_assoc. apply Permutation_app_tail.
  apply Permutation_app_comm.
Qed.

(** X18.  When no two regular records of the batch are filed under the same
    group key, nothing is lost: the two outputs together hold the projection
    of every record of the batch, each once. *)
Theorem resolve_keeps_every_record :
  (forall k,
     (length (filter (fun r => negb (is_mine r)) (group' k)) <= 1)%nat) ->
  exists good bad,
    resolve nfkc items = Ok (good, bad)
    /\ Permutation (good ++ bad) (map project items).
Proof.
  intro Hone. eexists. eexists. split; [apply resolve_spec|].
  apply Permutation_trans with (map project (flat_map group' keys'));
    [|apply Permutation_map, groups_permutation].
  apply outputs_by_group.
  intros k _. unfold good_of, bad_of, winner.
  specialize (Hone k).
  destruct (find candidate_b _) as [w|] eqn:E; [|reflexivity].
  apply find_some in E as [Hin _].
  destruct (filter (fun r => negb (is_mine r)) (group' k)) as [|a [|b r]] eqn:F.
  - destruct Hin.
  - destruct Hin as [->|[]].
    change ([project w] ++ map project (filter is_mine (group' k)))
      with (map project ([w] ++ filter is_mine (group' k))).
    apply Permutation_map. rewrite <- F.
    apply filter_partition_permutation.
  - cbn in Hone. lia.
Qed.

(** X19.  When no regular record of the batch is a candidate, the good
    output is empty and the bad output holds the projection of every record
    of the batch, each once. *)
Theorem resolve_without_candidate :
  (forall item, In item items -> is_mine item = false ->
                is_candidate item <> Ok true) ->
  exists bad,
    resolve nfkc items = Ok ([], bad)
    /\ Permutation bad (map project items).
Proof.
  intro Hnone.
  assert (Hw : forall k, winner nfkc items k = None).
  { intro k. destruct (winner nfkc items k) as [w|] eqn:E; [|reflexivity].
    destruct (@winner_some nfkc items k w E) as (Hin & _ & Hm & Hc).
    apply candidate_b_true in Hc. destruct (Hnone w Hin Hm Hc). }
  assert (Hgood : forall ks, flat_map (good_of nfkc items) ks = []).
  { induction ks as [|k ks IH]; [reflexivity|].
    cbn. unfold good_of at 1. now rewrite Hw. }
  exists bad'. split.
  - rewrite resolve_spec. now rewrite Hgood.
  - apply Permutation_trans with (map project (flat_map group' keys'));
      [|apply Permutation_map, groups_permutation].
    change bad' with ([] ++ bad'). rewrite <- (Hgood keys').
    apply outputs_by_group. intros k _.
    unfold good_of, bad_of. now rewrite Hw.
Qed.

End ResolverMore.

Lemma resolve_keeps_every_record_witness :
  let a := record "AK-47" (Some 20%Z) (Some [2]) (Some [1]) (Some 2) None in
  let m := record "AK-47 MINE" (Some 20%Z) (Some [2]) (Some [1]) (Some 2) None in
  let n := record "M4A4" (Some 3%Z) (Some [2]) (Some [1]) (Some 2) None in
  exists good bad,
    resolve0 [m; n; a] = Ok (good, bad)
    /\ Permutation (good ++ bad) (map project [m; n; a]).
Proof.
  intros a m n.
  apply (@resolve_keeps_every_record nfkc_stable [m; n; a]).
  intro k. unfold group_of. cbn [filter].
  destruct (in_group nfkc_stable k m) eqn:Em,
    (in_group nfkc_stable k n) eqn:En,
    (in_group nfkc_stable k a) eqn:Ea;
    try (vm_compute; lia);
    apply in_group_iff in En; apply in_group_iff in Ea;
    rewrite En in Ea; vm_compute in Ea; discriminate Ea.
Defined.

Lemma resolve_without_candidate_witness :
  let a := record "AK-47" (Some 3%Z) (Some [2]) (Some [1]) (Some 2) None in
  let m := record "AK-47 MINE" (Some 20%Z) (Some [2]) (Some [1]) (Some 2) None in
  exists bad,
    resolve0 [m; a] = Ok ([], bad)
    /\ Permutation bad (map project [m; a]).
Proof.
  intros a m.
  apply (@resolve_without_candidate nfkc_stable [m; a]).
  intros item [<-|[<-|[]]] Hm; [discriminate Hm | discriminate].
Defined.

(** ** The batch *)

Lemma transform_item_wear (nfkc : str -> str) (py_float : str -> result Q)
    (strptime : str -> str -> result datetime) (now : datetime)
    (raw_item : RawItem) :
  wear (transform_item nfkc py_float strptime now raw_item)
  = match raw_wear raw_item with
    | Some w => w
    | None => Some []
    end.
Proof.
  rewrite transform_item_unfold. cbv zeta.
  destruct (parse_prices py_float (offer_prices raw_item)); [|reflexivity].
  destruct (parse_prices py_float (target_prices raw_item)); [|reflexivity].
  destruct (py_div _ _); [destruct (py_div _ _)|]; reflexivity.
Qed.

(** X20.  The filtering never raises; every entry of its two outputs is the
    cleaned name and the wear of a raw item of the aggregated file; the
    outputs hold no more entries than the file has items; and when the file
    cannot be read both outputs are empty. *)
Theorem filter_items_provenance (nfkc : str -> str)
    (py_float : str -> result Q) (strptime : str -> str -> result datetime)
    (now : datetime) (aggregated : result (list RawItem)) :
  exists good bad,
    filter_items nfkc py_float strptime now aggregated = Ok (good, bad)
    /\ (forall p,
          In p (good ++ bad) ->
          exists raw_items raw_item,
            aggregated = Ok raw_items /\ In raw_item raw_items
            /\ p_name p = clean_name nfkc (raw_name raw_item)
            /\ p_wear p = match raw_wear raw_item with
                          | Some w => w
                          | None => Some []
                          end)
    /\ (forall raw_items,
          aggregated = Ok raw_items ->
          (length good + length bad <= length raw_items)%nat)
    /\ (raises aggregated -> good = [] /\ bad = []).
Proof.
  unfold filter_items. eexists. eexists. split; [apply resolve_spec|].
  set (items := load_items nfkc py_float strptime now aggregated).
  assert (Hitem : forall item, In item items ->
            exists raw_items raw_item,
              aggregated = Ok raw_items /\ In raw_item raw_items
              /\ item = transform_item nfkc py_float strptime now raw_item).
  { subst items. unfold load_items. destruct aggregated as [raws|e]; cbn.
    - intros item Hin. apply in_map_iff in Hin as (r & <- & Hr).
      now exists raws, r.
    - intros item []. }
  split; [|split].
  - intros p Hp.
    assert (Hsrc : exists item, In item items /\ p = project item).
    { apply in_app_or in Hp as [Hp|Hp].
      - apply in_good in Hp as (k & w & _ & E & ->).
        destruct (@winner_some nfkc items k w E) as (Hin & _).
        now exists w.
      - apply in_bad in Hp as (k & r & _ & Hin & _ & -> & _). now exists r. }
    destruct Hsrc as (item & Hin & ->).
    destruct (Hitem item Hin) as (raws & r & Ha & Hr & ->).
    exists raws, r. split; [exact Ha|]. split; [exact Hr|].
    cbn [project p_name p_wear]. split.
    + apply (transform_item_head nfkc py_float strptime now r).
    + apply transform_item_wear.
  - intros raws Ha. pose proof (outputs_length nfkc items) as Hlen.
    subst items. rewrite Ha in Hlen. unfold load_items in Hlen.
    cbn in Hlen. rewrite length_map in Hlen. rewrite Ha. exact Hlen.
  - intros [e He]. subst items. rewrite He. now split.
Qed.

(** ** The collector's naming *)

Lemma contains_in (c : N) (s : str) : contains c s = true <-> In c s.
Proof.
  unfold contains. rewrite existsb_exists. split.
  - intros (x & Hx & E). apply N.eqb_eq in E. now subst.
  - intro H. exists c. split; [exact H | apply N.eqb_refl].
Qed.

Lemma contains_not_in (c : N) (s : str) : contains c s = false <-> ~ In c s.
Proof.
  rewrite <- contains_in. destruct (contains c s); split; congruence.
Qed.

Lemma rsplit1_none (c : N) (s : str) :
  contains c s = false -> rsplit1 c s = None.
Proof.
  induction s as [|x s IH]; [reflexivity|]. cbn.
  intro H. apply orb_false_iff in H as [Hx Hs].
  rewrite (IH Hs), N.eqb_sym, Hx. reflexivity.
Qed.

Lemma rsplit1_last (c : N) (a b : str) :
  contains c b = false -> rsplit1 c (a ++ c :: b) = Some (a, b).
Proof.
  intro Hb. induction a as [|x a IH]; cbn.
  - now rewrite (@rsplit1_none c b Hb), N.eqb_refl.
  - now rewrite IH.
Qed.

Lemma rsplit1_none_inv (c : N) (s : str) :
  rsplit1 c s = None -> contains c s = false.
Proof.
  induction s as [|x s IH]; [reflexivity|]. cbn [rsplit1].
  destruct (rsplit1 c s) as [[a b]|]; [discriminate|].
  destruct (N.eqb_spec x c) as [->|Hx]; [discriminate|].
  intros _. unfold contains in *. cbn [existsb].
  rewrite (IH eq_refl), orb_false_r.
  apply N.eqb_neq. congruence.
Qed.

Lemma rsplit1_some (c : N) (s a b : str) :
  rsplit1 c s = Some (a, b) -> s = a ++ c :: b /\ contains c b = false.
Proof.
  revert a. induction s as [|x s IH]; intros a H; cbn in H; [discriminate|].
  destruct (rsplit1 c s) as [[a' b']|] eqn:E.
  - injection H as <- <-. destruct (IH a' eq_refl) as [-> Hb]. now split.
  - destruct (N.eqb_spec x c) as [->|]; [|discriminate].
    injection H as <- <-. split; [reflexivity|].
    now apply rsplit1_none_inv.
Qed.

Lemma lstrip_in (c : N) (s : str) : In c (lstrip s) -> In c s.
Proof.
  induction s as [|x s IH]; cbn; [auto|].
  destruct (isspace x); [intro H; right; now apply IH | auto].
Qed.

Lemma strip_in (c : N) (s : str) : In c (strip s) -> In c s.
Proof.
  unfold strip, rstrip. intro H.
  apply lstrip_in. apply in_rev. apply lstrip_in. now apply in_rev.
Qed.

Lemma lstrip_length (s : str) : (length (lstrip s) <= length s)%nat.
Proof.
  induction s as [|x s IH]; cbn; [lia|].
  destruct (isspace x); cbn; lia.
Qed.

Lemma lstrip_fixed (s : str) :
  (length s <= length (lstrip s))%nat ->
  s = [] \/ exists c r, s = c :: r /\ isspace c = false.
Proof.
  destruct s as [|c r]; [now left|]. cbn.
  destruct (isspace c) eqn:E.
  - intro H. pose proof (lstrip_length r). lia.
  - intros _. right. now exists c, r.
Qed.

Lemma strip_fixed (s : str) :
  strip s = s -> lstrip s = s /\ rstrip s = s.
Proof.
  intro H.
  assert (Hlen : (length s <= length (lstrip s))%nat).
  { rewrite <- H at 1. unfold strip, rstrip. rewrite length_rev.
    etransitivity; [apply lstrip_length|]. now rewrite length_rev. }
  assert (Hl : lstrip s = s).
  { destruct (@lstrip_fixed s Hlen) as [->|(c & r & -> & Hc)];
      [reflexivity|].
    cbn. now rewrite Hc. }
  split; [exact Hl|]. unfold strip in H. now rewrite Hl in H.
Qed.

Lemma strip_trailing_space (s : str) : strip s = s -> strip (s ++ SPACE) = s.
Proof.
  intro H. destruct (@strip_fixed s H) as [Hl Hr].
  assert (Hlen : (length s <= length (lstrip s))%nat) by (rewrite Hl; lia).
  destruct (@lstrip_fixed s Hlen) as [->|(c & r & -> & Hc)]; [reflexivity|].
  unfold strip. cbn [app lstrip]. rewrite Hc.
  change (c :: r ++ SPACE) with ((c :: r) ++ SPACE).
  unfold rstrip. rewrite rev_app_distr. cbn [rev SPACE app lstrip].
  change (isspace 32) with true. cbv iota. exact Hr.
Qed.

(** X21.  A full name made of a stripped name, a space and a stripped wear
    in parentheses is taken apart into that name and that wear, provided the
    wear holds no opening parenthesis. *)
Theorem parse_item_name_and_wear_round_trip (item_name item_wear : str) :
  strip item_name = item_name -> strip item_wear = item_wear ->
  contains LPAREN item_wear = false ->
  parse_item_name_and_wear
    (item_name ++ lit " (" ++ item_wear ++ lit ")")
  = Ok (item_name, Some item_wear).
Proof.
  intros Hn Hw Hp. unfold parse_item_name_and_wear.
  set (full := item_name ++ lit " (" ++ item_wear ++ lit ")").
  assert (Hfull : full = (item_name ++ SPACE) ++ LPAREN :: item_wear ++ [RPAREN]).
  { subst full. now rewrite <- app_assoc. }
  assert (Hc : contains LPAREN full = true).
  { apply contains_in. rewrite Hfull. apply in_or_app. right. now left. }
  assert (He : endswith full [RPAREN] = true).
  { subst full. rewrite !app_assoc. apply endswith_app. }
  rewrite Hc, He. cbn [andb].
  rewrite Hfull, rsplit1_last.
  - unfold drop_last. rewrite length_app. cbn [length].
    replace (length item_wear + 1 - 1)%nat with (length item_wear) by lia.
    rewrite firstn_app, firstn_all, Nat.sub_diag. cbn [firstn].
    rewrite app_nil_r, Hw, (@strip_trailing_space item_name Hn).
    reflexivity.
  - apply contains_not_in. intro H. apply in_app_or in H as [H|[H|[]]].
    + apply contains_in in H. congruence.
    + discriminate H.
Qed.

Lemma parse_item_name_and_wear_round_trip_witness :
  parse_item_name_and_wear (lit "Sawed-Off | Mosaico (Well-Worn)")
  = Ok (lit "Sawed-Off | Mosaico", Some (lit "Well-Worn")).
Proof.
  apply (@parse_item_name_and_wear_round_trip
           (lit "Sawed-Off | Mosaico") (lit "Well-Worn"));
    vm_compute; reflexivity.
Defined.

(** X22.  [parse_item_name_and_wear] never raises: the test before the
    split makes the unpacking safe.  The wear is [None], and the name the full
    name unchanged, exactly when the full name has no opening parenthesis or
    does not end with a closing one; a wear that is given holds no opening
    parenthesis, and neither name nor wear hold a character the full name did
    not hold. *)
Theorem parse_item_name_and_wear_total (full_name : str) :
  exists item_name item_wear,
    parse_item_name_and_wear full_name = Ok (item_name, item_wear)
    /\ (item_wear = None
        <-> contains LPAREN full_name && endswith full_name [RPAREN] = false)
    /\ (item_wear = None -> item_name = full_name)
    /\ (forall c, In c item_name -> In c full_name)
    /\ (forall w, item_wear = Some w ->
                  contains LPAREN w = false
                  /\ forall c, In c w -> In c full_name).
Proof.
  unfold parse_item_name_and_wear.
  destruct (contains LPAREN full_name) eqn:Hc; cbn [andb].
  2:{ exists full_name, None. repeat split; auto; discriminate. }
  destruct (endswith full_name [RPAREN]) eqn:He.
  2:{ exists full_name, None. repeat split; auto; discriminate. }
  destruct (rsplit1 LPAREN full_name) as [[name_part wear_part]|] eqn:E.
  2:{ rewrite (rsplit1_none_inv _ _ E) in Hc. discriminate. }
  destruct (@rsplit1_some LPAREN full_name name_part wear_part E)
    as [Hfull Hw].
  exists (strip name_part), (Some (strip (drop_last 1 wear_part))).
  split; [reflexivity|].
  assert (Hdrop : forall c, In c (drop_last 1 wear_part) -> In c wear_part).
  { intros c H. unfold drop_last in H.
    rewrite <- (firstn_skipn (length wear_part - 1) wear_part).
    apply in_or_app. now left. }
  split; [split; discriminate|]. split; [discriminate|]. split.
  - intros c H. apply strip_in in H. rewrite Hfull.
    apply in_or_app. now left.
  - intros w [= <-]. split.
    + apply contains_not_in. intro H. apply strip_in, Hdrop in H.
      apply contains_in in H. congruence.
    + intros c H. apply strip_in, Hdrop in H. rewrite Hfull.
      apply in_or_app. right. now right.
Qed.
